(** * Credential types and the connection-field validator of reindex-api

    A shallow embedding of [graphQL/builtins/createCredentialTypes.js] and of
    the [IsConnectionValidator] rule, with the properties their specification
    states about them.

    Stored attributes have the types the GraphQL schema gives them: a
    [GraphQLString] that may be missing is an [option string] ([None] is
    [undefined] or [null]). The argument object of a resolver maps names to
    JavaScript values ([undefined], [null], an integer or a string), and
    tests such as [if (args.size)] are tests of truthiness on them. An
    object whose property order matters is a list of entries; a map that
    is only looked up is a [gmap]. A function that can [throw] returns a
    [completion]. *)

From Stdlib Require Import ZArith String Ascii List Lia DecimalString.
From stdpp Require Import base decidable option list gmap strings.

Local Open Scope string_scope.

(** ** Completions: a returned value or a thrown exception *)

(** The two exception classes the module constructs: [UserError] (imported
    from [../UserError]) and the built-in [Error]. *)
Inductive exn : Type :=
| UserError (message : string)
| Error (message : string).

Inductive completion (A : Type) : Type :=
| Return (value : A)
| Throw (e : exn).

Arguments Return {A} value.
Arguments Throw {A} e.

(** The character [U+0022], which the template literals of the validator
    put around the names they cite. *)
Definition dquote : string := String "034"%char EmptyString.

(** [sub] occurs in [s]. *)
Definition occurs_in (sub s : string) : Prop :=
  exists pre post : string, s = pre +:+ sub +:+ post.

(** [result] is [s] with its leftmost occurrence of [pat] replaced by
    [replacement], or [s] itself when [pat] does not occur in it. *)
Definition first_replaced (pat replacement s result : string) : Prop :=
  (exists pre post : string,
      s = pre +:+ pat +:+ post
      /\ (forall pre' post' : string,
            s = pre' +:+ pat +:+ post' ->
            (String.length pre <= String.length pre')%nat)
      /\ result = pre +:+ replacement +:+ post)
  \/ (~ occurs_in pat s /\ result = s).

(** ** JavaScript values and strings *)

(** The values an argument object or a stored attribute holds here. *)
Inductive value : Type :=
| Undefined
| Null
| Int (n : Z)
| Str (s : string).

#[global] Instance value_eq_dec : EqDecision value.
Proof. solve_decision. Defined.

(** [String(n)] for an integer [n]: decimal digits after an optional
    minus sign. *)
Definition number_to_string (n : Z) : string :=
  NilZero.string_of_int (Z.to_int n).

(** The string a value contributes to a concatenation or a template
    literal. *)
Definition toString (v : value) : string :=
  match v with
  | Undefined => "undefined"
  | Null => "null"
  | Int n => number_to_string n
  | Str s => s
  end.

(** Truthiness, as [if (v)] and [!v] test it. *)
Definition truthy (v : value) : bool :=
  match v with
  | Undefined | Null => false
  | Int n => negb (n =? 0)%Z
  | Str s => negb (String.eqb s "")
  end.

(** A stored string attribute, [None] when missing or [null]. *)
Definition attribute (a : option string) : value :=
  match a with
  | Some s => Str s
  | None => Undefined
  end.

(** An argument object: [args.k] is [Undefined] for a key not in it. *)
Definition arg (args : gmap string value) (k : string) : value :=
  default Undefined (args !! k).

Module StringOps.

(** [s.slice(n)]. *)
Fixpoint drop (n : nat) (s : string) : string :=
  match n, s with
  | O, _ => s
  | S n', String _ s' => drop n' s'
  | S _, EmptyString => EmptyString
  end.

(** [s.slice(0, n)]. *)
Fixpoint take (n : nat) (s : string) : string :=
  match n, s with
  | S n', String c s' => String c (take n' s')
  | _, _ => EmptyString
  end.

Fixpoint all_chars (p : ascii -> bool) (s : string) : bool :=
  match s with
  | EmptyString => true
  | String c s' => p c && all_chars p s'
  end.

(** [s.indexOf(pat)]: where the leftmost occurrence of [pat] starts. *)
Fixpoint find (pat s : string) : option nat :=
  if String.prefix pat s then Some O
  else
    match s with
    | EmptyString => None
    | String _ s' => S <$> find pat s'
    end.

(** The text a replacement string stands for at a match of a pattern
    without groups: [$$] is a dollar sign, [$&] the matched text, a dollar
    sign with a backquote the text before the match, [$'] the text after
    it, and everything else is itself. *)
Fixpoint expand (matched before after replacement : string) : string :=
  match replacement with
  | EmptyString => EmptyString
  | String c rest =>
      if Ascii.eqb c "$" then
        match rest with
        | String c' rest' =>
            if Ascii.eqb c' "$"
            then String "$" (expand matched before after rest')
            else if Ascii.eqb c' "&"
            then matched +:+ expand matched before after rest'
            else if Ascii.eqb c' "`"
            then before +:+ expand matched before after rest'
            else if Ascii.eqb c' "'"
            then after +:+ expand matched before after rest'
            else String c (expand matched before after rest)
        | EmptyString => String c EmptyString
        end
      else String c (expand matched before after rest)
  end.

(** A replacement string without a dollar sign. *)
Definition plain (replacement : string) : bool :=
  all_chars (fun c => negb (Ascii.eqb c "$")) replacement.

(** [s.replace(pattern, replacement)] for a pattern that matches exactly
    the text [pat] (a string, or a regular expression of literal
    characters without the [g] flag): the leftmost occurrence is replaced,
    and a string without one is returned as it is. *)
Definition replace (pat replacement s : string) : string :=
  match find pat s with
  | Some i =>
      let before := take i s in
      let after := drop (i + String.length pat) s in
      before +:+ expand pat before after replacement +:+ after
  | None => s
  end.

(** The text before the first [c] and, when there is one, the text
    after it. *)
Fixpoint split_first (c : ascii) (s : string) : string * option string :=
  match s with
  | EmptyString => (EmptyString, None)
  | String c' s' =>
      if Ascii.eqb c' c then (EmptyString, Some s')
      else
        let r := split_first c s' in
        (String c' r.1, r.2)
  end.

(** [s.split(c)]. *)
Fixpoint split (c : ascii) (s : string) : list string :=
  match s with
  | EmptyString => [EmptyString]
  | String c' s' =>
      if Ascii.eqb c' c then EmptyString :: split c s'
      else
        match split c s' with
        | piece :: pieces => String c' piece :: pieces
        | [] => [String c' EmptyString]
        end
  end.

(** [pieces.join(sep)]. *)
Fixpoint join (sep : string) (pieces : list string) : string :=
  match pieces with
  | [] => EmptyString
  | [piece] => piece
  | piece :: pieces' => piece +:+ sep +:+ join sep pieces'
  end.

Definition hex_digit (n : N) : ascii :=
  match n with
  | 0 => "0" | 1 => "1" | 2 => "2" | 3 => "3" | 4 => "4" | 5 => "5"
  | 6 => "6" | 7 => "7" | 8 => "8" | 9 => "9" | 10 => "A" | 11 => "B"
  | 12 => "C" | 13 => "D" | 14 => "E" | _ => "F"
  end%N%char.

Definition is_alphanumeric (c : ascii) : bool :=
  let n := N_of_ascii c in
  ((48 <=? n) && (n <=? 57) || (65 <=? n) && (n <=? 90)
   || (97 <=? n) && (n <=? 122))%N.

(** Percent-encoding of the bytes of [s] that [unreserved] does not
    accept. *)
Fixpoint percent_encode (unreserved : ascii -> bool) (s : string)
  : string :=
  match s with
  | EmptyString => EmptyString
  | String c s' =>
      if unreserved c then String c (percent_encode unreserved s')
      else
        let n := N_of_ascii c in
        String "%" (String (hex_digit (n / 16)) (String (hex_digit (n mod 16))
          (percent_encode unreserved s')))
  end.

(** The value of a string of decimal digits after [acc]. *)
Fixpoint digits (acc : N) (s : string) : option N :=
  match s with
  | EmptyString => Some acc
  | String c s' =>
      let n := N_of_ascii c in
      if ((48 <=? n) && (n <=? 57))%N then digits (10 * acc + (n - 48)) s'
      else None
  end.

(** The array index a property name is: the decimal form, without
    leading zeros, of an integer below [2^32 - 1]. *)
Definition array_index (k : string) : option N :=
  match k with
  | EmptyString => None
  | String c rest =>
      if Ascii.eqb c "0" && negb (String.eqb rest EmptyString) then None
      else
        match digits 0 k with
        | Some n => if (n <? 4294967295)%N then Some n else None
        | None => None
        end
  end.

End StringOps.

(** ** JavaScript objects with string keys

    An object whose property order can be observed ([Object.keys], a query
    string printed from it) is a list of entries with distinct keys, in
    property order. *)

Module Obj.
Section Obj.

Context {V : Type}.

Definition t : Type := list (string * V).

(** [o[k]]; [None] is [undefined]. *)
Fixpoint get (k : string) (o : t) : option V :=
  match o with
  | [] => None
  | (k', v) :: o' => if decide (k' = k) then Some v else get k o'
  end.

(** [o[k] = v] for a name [k] that is not an array index: an existing
    property keeps its place, a new one comes last. *)
Fixpoint set (k : string) (v : V) (o : t) : t :=
  match o with
  | [] => [(k, v)]
  | (k', v') :: o' =>
      if decide (k' = k) then (k, v) :: o' else (k', v') :: set k v o'
  end.

(** A new property whose name is the array index [n]: it comes after
    the smaller array indices and before every other property. *)
Fixpoint insert_index (n : N) (k : string) (v : V) (o : t) : t :=
  match o with
  | [] => [(k, v)]
  | (k', v') :: o' =>
      match StringOps.array_index k' with
      | Some n' =>
          if (n' <? n)%N then (k', v') :: insert_index n k v o'
          else (k, v) :: o
      | None => (k, v) :: o
      end
  end.

(** [o[k] = v] for any name: the properties named by array indices come
    first, in ascending order, and the others follow in the order they
    were created. *)
Definition assign (k : string) (v : V) (o : t) : t :=
  match StringOps.array_index k, get k o with
  | Some n, None => insert_index n k v o
  | _, _ => set k v o
  end.

(** [delete o[k]]. *)
Fixpoint delete (k : string) (o : t) : t :=
  match o with
  | [] => []
  | (k', v') :: o' =>
      if decide (k' = k) then delete k o' else (k', v') :: delete k o'
  end.

(** [Object.keys(o)]. *)
Definition keys (o : t) : list string := o.*1.

(** An object literal [{ k1: v1, ..., kn: vn }]; a spread [...o]
    contributes the entries of [o]. Later entries overwrite earlier
    ones. *)
Definition literal (entries : list (string * V)) : t :=
  foldl (fun o e => set e.1 e.2 o) [] entries.

End Obj.
Arguments t V : clear implicits.
End Obj.

(** ** The GraphQL type definitions *)

Module GraphQL.

(** The resolvers a field of this module can carry. *)
Inductive resolver : Type :=
| FacebookPictureResolve
| GooglePictureResolve
| TwitterPictureResolve
| CredentialResolve (provider : string).

Record Metadata : Type := {
  unique : bool;
  computed : bool;
}.

Definition noMetadata : Metadata := {| unique := false; computed := false |}.

(** The configurations given to [new GraphQLObjectType] and
    [new GraphQLEnumType], and the two scalars used. *)
Inductive GraphQLType : Type :=
| GraphQLString
| GraphQLInt
| GraphQLEnumType (name description : string)
    (values : Obj.t string)
| GraphQLObjectType (name description : string)
    (fields : list (string * FieldConfig))
with FieldConfig : Type :=
| Field (type : GraphQLType) (description : string)
    (args : list (string * ArgConfig)) (metadata : Metadata)
    (resolve : option resolver)
with ArgConfig : Type :=
| Arg (type : GraphQLType) (description : string)
    (defaultValue : option string).

Definition fields (t : GraphQLType) : Obj.t FieldConfig :=
  match t with
  | GraphQLObjectType _ _ fs => fs
  | _ => []
  end.

Definition type (f : FieldConfig) : GraphQLType :=
  match f with Field t _ _ _ _ => t end.

Definition args (f : FieldConfig) : Obj.t ArgConfig :=
  match f with Field _ _ a _ _ => a end.

Definition resolve (f : FieldConfig) : option resolver :=
  match f with Field _ _ _ _ r => r end.

Definition defaultValue (a : ArgConfig) : option string :=
  match a with Arg _ _ d => d end.

Definition description (f : FieldConfig) : string :=
  match f with Field _ d _ _ _ => d end.

Definition metadata (f : FieldConfig) : Metadata :=
  match f with Field _ _ _ m _ => m end.

(** The [name] of an object or enumeration type. *)
Definition typeName (t : GraphQLType) : option string :=
  match t with
  | GraphQLObjectType n _ _ | GraphQLEnumType n _ _ => Some n
  | GraphQLString | GraphQLInt => None
  end.

(** A field with a type and a description only. *)
Definition plain (t : GraphQLType) (description : string) : FieldConfig :=
  Field t description [] noMetadata None.

Record TypeSet : Type := { TypeSet_type : GraphQLType }.

End GraphQL.

Module CredentialTypes.
Import GraphQL.

Definition getBaseCredentialFields (providerName : string)
  : Obj.t FieldConfig :=
  Obj.literal [
    ("accessToken",
     plain GraphQLString
       ("The OAuth access token obtained for the " +:+ providerName +:+ " "
        +:+ "user during authentication."));
    ("displayName",
     plain GraphQLString ("The " +:+ providerName +:+ " user's full name."));
    ("id",
     Field GraphQLString ("The " +:+ providerName +:+ " user's ID.") []
       {| unique := true; computed := false |} None)
  ].

Definition ReindexAuth0Credential : GraphQLType :=
  GraphQLObjectType "ReindexAuth0Credential" "Auth0 user profile."
    (Obj.literal (getBaseCredentialFields "Auth0" ++ [
      ("email",
       plain GraphQLString
         "The email address stored in the Auth0 user profile.");
      ("picture",
       plain GraphQLString "The URL of the person's profile picture.")
    ])).

Definition ReindexGithubCredential : GraphQLType :=
  GraphQLObjectType "ReindexGithubCredential"
    "GitHub authentication credentials."
    (Obj.literal (getBaseCredentialFields "GitHub" ++ [
      ("email",
       plain GraphQLString "The GitHub user's (public) email address.");
      ("picture",
       plain GraphQLString "The URL of the person's profile picture.");
      ("username", plain GraphQLString "The user's GitHub username.")
    ])).

Definition ReindexFacebookCredential : GraphQLType :=
  GraphQLObjectType "ReindexFacebookCredential"
    "Facebook authentication credentials."
    (Obj.literal (getBaseCredentialFields "Facebook" ++ [
      ("email", plain GraphQLString "The Facebook user's email address.");
      ("picture",
       Field GraphQLString "The URL of the person's profile picture."
         (Obj.literal [
           ("height",
            Arg GraphQLInt "The height of this picture in pixels." None);
           ("width",
            Arg GraphQLInt "The width of this picture in pixels." None)
         ])
         {| unique := false; computed := true |}
         (Some FacebookPictureResolve))
    ])).

Definition ReindexGoogleCredential : GraphQLType :=
  GraphQLObjectType "ReindexGoogleCredential"
    "Google authentication credentials."
    (Obj.literal (getBaseCredentialFields "Google" ++ [
      ("email", plain GraphQLString "Google account email address.");
      ("picture",
       Field GraphQLString "The URL of the person's profile picture."
         (Obj.literal [
           ("size",
            Arg GraphQLInt
              ("Dimension of each side in pixels. If given, the " +:+
               "image will be resized and cropped to a square.") None)
         ])
         noMetadata
         (Some GooglePictureResolve))
    ])).

Definition ReindexTwitterPictureSize : GraphQLType :=
  GraphQLEnumType "ReindexTwitterPictureSize"
    "Size variant of a Twitter profile picture."
    (Obj.literal [
      ("normal", "48px by 48px");
      ("bigger", "73px by 73px");
      ("mini", "24px by 24px");
      ("original", "Original size")
    ]).

Definition ReindexTwitterCredential : GraphQLType :=
  GraphQLObjectType "ReindexTwitterCredential"
    "Twitter authentication credentials."
    (Obj.literal (getBaseCredentialFields "Twitter" ++ [
      ("accessTokenSecret",
       plain GraphQLString
         ("The OAuth token secret obtained for the Twitter user " +:+
          "during authentication."));
      ("picture",
       Field GraphQLString "The URL of the person's profile picture."
         (Obj.literal [
           ("size",
            Arg ReindexTwitterPictureSize "Size of the profile picture."
              (Some "original"))
         ])
         noMetadata
         (Some TwitterPictureResolve));
      ("username", plain GraphQLString "The user's Twitter screen name.")
    ])).

Definition ReindexCredentialCollection : GraphQLType :=
  GraphQLObjectType "ReindexCredentialCollection"
    "The credentials of the user in different authentication services."
    (Obj.literal [
      ("auth0",
       Field ReindexAuth0Credential
         "The Auth0 user profile of the authenticated user." [] noMetadata
         (Some (CredentialResolve "auth0")));
      ("facebook",
       Field ReindexFacebookCredential
         "The Facebook credentials of the authenticated user." []
         noMetadata (Some (CredentialResolve "facebook")));
      ("github",
       Field ReindexGithubCredential
         "The GitHub credentials of the authenticated user." [] noMetadata
         (Some (CredentialResolve "github")));
      ("google",
       Field ReindexGoogleCredential
         "The Google credentials of the authenticated user." [] noMetadata
         (Some (CredentialResolve "google")));
      ("twitter",
       Field ReindexTwitterCredential
         "The Twitter credentials of the authenticated user." [] noMetadata
         (Some (CredentialResolve "twitter")))
    ]).

Definition createCredentialTypes : list TypeSet := [
  {| TypeSet_type := ReindexCredentialCollection |};
  {| TypeSet_type := ReindexAuth0Credential |};
  {| TypeSet_type := ReindexFacebookCredential |};
  {| TypeSet_type := ReindexGithubCredential |};
  {| TypeSet_type := ReindexGoogleCredential |};
  {| TypeSet_type := ReindexTwitterCredential |}
].

(** The providers, the three base fields and the extra fields documented
    for each provider. *)
Definition providers : list string :=
  ["auth0"; "github"; "facebook"; "google"; "twitter"].

Definition baseFields : list string := ["accessToken"; "displayName"; "id"].

Definition documentedExtras (provider : string) : list string :=
  if decide (provider = "auth0") then ["email"; "picture"]
  else if decide (provider = "github") then ["email"; "picture"; "username"]
  else if decide (provider = "facebook") then ["email"; "picture"]
  else if decide (provider = "google") then ["email"; "picture"]
  else if decide (provider = "twitter")
  then ["accessTokenSecret"; "picture"; "username"]
  else [].

(** The name [getBaseCredentialFields] is called with in the type of each
    provider. *)
Definition providerName (provider : string) : string :=
  if decide (provider = "auth0") then "Auth0"
  else if decide (provider = "github") then "GitHub"
  else if decide (provider = "facebook") then "Facebook"
  else if decide (provider = "google") then "Google"
  else if decide (provider = "twitter") then "Twitter"
  else EmptyString.

(** The type generated for a provider: the type of the collection's field
    of that name. *)
Definition credentialType (provider : string) : option GraphQLType :=
  type <$> Obj.get provider (fields ReindexCredentialCollection).

End CredentialTypes.

(** ** The libraries the picture resolvers call

    [lodash], [qs] and Node's [url] are not part of the repository; they are
    modelled from their documented behaviour on the values that reach them
    here. *)

Module Lodash.

(** [pick(object, ...props)]: a new object with the listed properties
    that [object] has, in the order they are listed. *)
Definition pick {V : Type} (object : gmap string V) (props : list string)
  : Obj.t V :=
  omap (fun k => (fun v => (k, v)) <$> object !! k) props.

End Lodash.

Module Qs.

Record options : Type := { skipNulls : bool }.

(** The characters [qs] leaves as they are: letters, digits and
    [-], [.], [_], [~]. *)
Definition unreserved (c : ascii) : bool :=
  StringOps.is_alphanumeric c
  || bool_decide (c = "-"%char) || bool_decide (c = "."%char)
  || bool_decide (c = "_"%char) || bool_decide (c = "~"%char).

Definition encode (s : string) : string :=
  StringOps.percent_encode unreserved s.

(** The [key=value] pieces one property contributes: none for
    [undefined], none for [null] under [skipNulls] (and [key=]
    otherwise). *)
Definition pieces (opts : options) (key : string) (v : value)
  : list string :=
  match v with
  | Undefined => []
  | Null => if skipNulls opts then [] else [encode key +:+ "="]
  | Int _ | Str _ => [encode key +:+ "=" +:+ encode (toString v)]
  end.

(** [Qs.stringify(obj, opts)] for an object of scalars. *)
Definition stringify (obj : Obj.t value) (opts : options) : string :=
  StringOps.join "&" (obj ≫= fun e => pieces opts e.1 e.2).

End Qs.

Module Url.

(** A value of a parsed query: a string, a number assigned later, or the
    strings of a repeated key. *)
Inductive qvalue : Type :=
| QString (s : string)
| QNumber (n : Z)
| QArray (l : list string).

(** The object [Url.parse] returns; a member that is [null] or deleted
    is [None]. *)
Record UrlObject : Type := {
  protocol : option string;
  slashes : bool;
  auth : option string;
  host : option string;
  port : option string;
  hostname : option string;
  hash : option string;
  search : option string;
  query : Obj.t qvalue;
  pathname : option string;
  path : option string;
  href : string;
}.

(** [u.query = q]. *)
Definition set_query (q : Obj.t qvalue) (u : UrlObject) : UrlObject :=
  {| protocol := protocol u; slashes := slashes u; auth := auth u;
     host := host u; port := port u; hostname := hostname u;
     hash := hash u; search := search u; query := q;
     pathname := pathname u; path := path u; href := href u |}.

(** [delete u.search]. *)
Definition delete_search (u : UrlObject) : UrlObject :=
  {| protocol := protocol u; slashes := slashes u; auth := auth u;
     host := host u; port := port u; hostname := hostname u;
     hash := hash u; search := None; query := query u;
     pathname := pathname u; path := path u; href := href u |}.

(** The two functions of the module that are called: [parse(url, true)],
    which parses the query string into an object, and [format]. *)
Record Lib : Type := {
  parse : string -> UrlObject;
  format : UrlObject -> string;
}.

End Url.

(** A model of Node's [url] and [querystring] for the URLs the examples
    use: [scheme://host/path?query#hash] in lower case, without user
    information, without characters that the parser escapes and without
    percent escapes or [+] in the query (they are not decoded here). *)
Module NodeUrl.
Import Url.

(** [querystring.escape]. *)
Definition unreserved (c : ascii) : bool :=
  StringOps.is_alphanumeric c
  || bool_decide (c ∈ ["-"; "_"; "."; "!"; "~"; "*"; "'"; "("; ")"]%char).

Definition escape (s : string) : string :=
  StringOps.percent_encode unreserved s.

(** One more [key=value] of a query string: a key seen before collects
    its values in an array. *)
Definition add_pair (o : Obj.t qvalue) (k v : string) : Obj.t qvalue :=
  match Obj.get k o with
  | None => Obj.assign k (QString v) o
  | Some (QString v0) => Obj.assign k (QArray [v0; v]) o
  | Some (QArray l) => Obj.assign k (QArray (l ++ [v])) o
  | Some (QNumber n) => Obj.assign k (QArray [number_to_string n; v]) o
  end.

(** [querystring.parse(qs)]. *)
Definition parse_query (qs : string) : Obj.t qvalue :=
  foldl
    (fun o piece =>
       if decide (piece = EmptyString) then o
       else
         let kv := StringOps.split_first "=" piece in
         add_pair o kv.1 (default EmptyString kv.2))
    [] (StringOps.split "&" qs).

Definition query_pieces (k : string) (v : qvalue) : list string :=
  match v with
  | QString s => [escape k +:+ "=" +:+ escape s]
  | QNumber n => [escape k +:+ "=" +:+ escape (number_to_string n)]
  | QArray l => (fun s => escape k +:+ "=" +:+ escape s) <$> l
  end.

(** [querystring.stringify(obj)]. *)
Definition stringify_query (o : Obj.t qvalue) : string :=
  StringOps.join "&" (o ≫= fun e => query_pieces e.1 e.2).

Definition is_protocol_char (c : ascii) : bool :=
  StringOps.is_alphanumeric c || bool_decide (c ∈ ["."; "+"; "-"]%char).

Definition slashedProtocol (protocol : string) : bool :=
  bool_decide
    (protocol ∈ ["http:"; "https:"; "ftp:"; "gopher:"; "file:"]).

(** A string that is present and not empty, as [x || y] tests it. *)
Definition nonempty (o : option string) : option string :=
  match o with
  | Some EmptyString => None
  | _ => o
  end.

(** [first + s] unless [s] is empty or starts with [first] already. *)
Definition lead (first : ascii) (s : string) : string :=
  match s with
  | EmptyString => EmptyString
  | String c _ => if Ascii.eqb c first then s else String first s
  end.

Fixpoint escape_path (s : string) : string :=
  match s with
  | EmptyString => EmptyString
  | String c s' =>
      if Ascii.eqb c "?" then "%3F" +:+ escape_path s'
      else if Ascii.eqb c "#" then "%23" +:+ escape_path s'
      else String c (escape_path s')
  end.

(** [Url.format(u)]. *)
Definition format (u : UrlObject) : string :=
  let auth :=
    match nonempty (auth u) with
    | Some a => a +:+ "@"
    | None => EmptyString
    end in
  let protocol := default EmptyString (protocol u) in
  let pathname := default EmptyString (pathname u) in
  let hash := default EmptyString (hash u) in
  let host :=
    match nonempty (host u) with
    | Some h => Some (auth +:+ h)
    | None =>
        match nonempty (hostname u) with
        | Some h =>
            Some (auth +:+ h +:+
                  match nonempty (port u) with
                  | Some p => ":" +:+ p
                  | None => EmptyString
                  end)
        | None => None
        end
    end in
  let query := stringify_query (query u) in
  let search :=
    match nonempty (search u) with
    | Some s => s
    | None =>
        if decide (query = EmptyString) then EmptyString else "?" +:+ query
    end in
  let protocol :=
    if decide (protocol = EmptyString) then protocol
    else if String.eqb (StringOps.drop (String.length protocol - 1) protocol)
              ":"
    then protocol else protocol +:+ ":" in
  let slashed :=
    slashes u
    || (bool_decide (protocol = EmptyString) || slashedProtocol protocol)
       && bool_decide (is_Some host) in
  let host' :=
    if slashed then "//" +:+ default EmptyString host
    else default EmptyString host in
  let pathname := if slashed then lead "/" pathname else pathname in
  protocol +:+ host' +:+ escape_path pathname
  +:+ StringOps.replace "#" "%23" (lead "?" search) +:+ lead "#" hash.

(** [Url.parse(url, true)]. *)
Definition parse (url : string) : UrlObject :=
  let h := StringOps.split_first "#" url in
  let hash := (fun x => "#" +:+ x) <$> h.2 in
  let q := StringOps.split_first "?" h.1 in
  let search := default EmptyString ((fun x => "?" +:+ x) <$> q.2) in
  let query := parse_query (default EmptyString q.2) in
  let p := StringOps.split_first ":" q.1 in
  let has_protocol :=
    bool_decide (is_Some p.2) && negb (String.eqb p.1 EmptyString)
    && StringOps.all_chars is_protocol_char p.1 in
  let protocol := if has_protocol then Some (p.1 +:+ ":") else None in
  let rest := if has_protocol then default EmptyString p.2 else q.1 in
  let slashes := String.prefix "//" rest in
  let rest := if slashes then StringOps.drop 2 rest else rest in
  let a := StringOps.split_first "/" rest in
  let host := if slashes then nonempty (Some a.1) else None in
  let hp := StringOps.split_first ":" (default EmptyString host) in
  let hostname := (fun _ => hp.1) <$> host in
  let port := if slashes then hp.2 else None in
  let pathname :=
    if slashes then
      match a.2 with
      | Some x => Some ("/" +:+ x)
      | None =>
          if slashedProtocol (default EmptyString protocol)
             && bool_decide (is_Some host)
          then Some "/" else None
      end
    else nonempty (Some rest) in
  let u :=
    {| protocol := protocol; slashes := slashes; auth := None;
       host := host; port := port; hostname := hostname; hash := hash;
       search := Some search; query := query; pathname := pathname;
       path := nonempty (Some (default EmptyString pathname +:+ search));
       href := EmptyString |} in
  {| protocol := protocol; slashes := slashes; auth := None;
     host := host; port := port; hostname := hostname; hash := hash;
     search := Some search; query := query; pathname := pathname;
     path := path u; href := format u |}.

Definition lib : Lib := {| Url.parse := parse; Url.format := format |}.

End NodeUrl.

(** ** The executor's argument defaults

    The GraphQL executor, not a resolver, supplies the [defaultValue] of an
    argument that the query does not give. *)
Module Executor.
Import GraphQL.

Definition nullish (v : value) : bool :=
  match v with
  | Undefined | Null => true
  | _ => false
  end.

(** The argument object a resolver receives: for each declared argument
    the given value, or else its default, when there is one. *)
Definition getArgumentValues (argDefs : Obj.t ArgConfig)
    (given : gmap string value) : gmap string value :=
  foldl
    (fun result def =>
       let v := arg given def.1 in
       let v := if nullish v then attribute (defaultValue def.2) else v in
       if nullish v then result else <[def.1 := v]> result)
    ∅ argDefs.

End Executor.

(** ** The picture resolvers *)

Module Pictures.
Import GraphQL CredentialTypes.

(** The stored profile of one user at one provider. *)
Record CredentialRecord : Type := {
  accessToken : option string;
  displayName : option string;
  id : string;
  email : option string;
  picture : option string;
  username : option string;
  accessTokenSecret : option string;
}.

(** The [resolve] of [ReindexFacebookCredential.picture]. *)
Definition facebookPicture (parent : CredentialRecord)
    (args : gmap string value) : string :=
  let url :=
    "https://graph.facebook.com/v2.3/" +:+ id parent +:+ "/picture" in
  let queryString :=
    Qs.stringify (Lodash.pick args ["width"; "height"])
      {| Qs.skipNulls := true |} in
  if truthy (Str queryString) then url +:+ "?" +:+ queryString else url.

(** The value assigned to [query.sz]: the number, for a [GraphQLInt]. *)
Definition qvalue_of (v : value) : Url.qvalue :=
  match v with
  | Int n => Url.QNumber n
  | Str s => Url.QString s
  | Undefined | Null => Url.QString EmptyString
  end.

(** The [resolve] of [ReindexGoogleCredential.picture]; [None] is
    [null]. *)
Definition googlePicture (U : Url.Lib) (parent : CredentialRecord)
    (args : gmap string value) : option string :=
  let url := attribute (picture parent) in
  if negb (truthy url) then None
  else
    let urlObject := Url.parse U (toString url) in
    let query :=
      if truthy (arg args "size")
      then Obj.set "sz" (qvalue_of (arg args "size")) (Url.query urlObject)
      else Obj.delete "sz" (Url.query urlObject) in
    let urlObject := Url.set_query query urlObject in
    let urlObject := Url.delete_search urlObject in
    Some (Url.format U urlObject).

(** The [resolve] of [ReindexTwitterCredential.picture]; [None] is
    [null]. *)
Definition twitterPicture (parent : CredentialRecord)
    (args : gmap string value) : option string :=
  let url := attribute (picture parent) in
  if negb (truthy url) then None
  else if decide (arg args "size" = Str "original")
  then Some (StringOps.replace "_normal." "." (toString url))
  else
    Some (StringOps.replace "_normal."
            ("_" +:+ toString (arg args "size") +:+ ".") (toString url)).

(** A stored profile with the given [id] and [picture] and nothing
    else. *)
Definition profile (id : string) (picture : option string)
  : CredentialRecord :=
  {| accessToken := None; displayName := None; id := id; email := None;
     picture := picture; username := None; accessTokenSecret := None |}.

(** The declared arguments of a type's [picture] field. *)
Definition pictureArgs (t : GraphQLType) : Obj.t ArgConfig :=
  default [] (args <$> Obj.get "picture" (fields t)).

(** The values of the enumeration [ReindexTwitterPictureSize]: each is
    its own name. *)
Definition twitterPictureSizes : list string :=
  match ReindexTwitterPictureSize with
  | GraphQLEnumType _ _ values => Obj.keys values
  | _ => []
  end.

(** The argument object the Twitter resolver receives when the query
    gives the size [given], or none. *)
Definition twitterArgs (given : option string) : gmap string value :=
  Executor.getArgumentValues (pictureArgs ReindexTwitterCredential)
    (match given with
     | Some size => {[ "size" := Str size ]}
     | None => ∅
     end).

(** What takes the place of the token [_normal.] for a size: [_<size>.],
    and [.] alone for [original]. *)
Definition sizeToken (size : string) : string :=
  if decide (size = "original") then "." else "_" +:+ size +:+ ".".

(** [u'] is [u] with the property [sz] of its query set to [sz] (removed,
    for [None]) and without its [search]: the other query properties keep
    their values and their order, the other members are the same. *)
Definition sz_changed (sz : option Url.qvalue) (u u' : Url.UrlObject)
  : Prop :=
  Obj.get "sz" (Url.query u') = sz
  /\ (forall k : string,
        k <> "sz" -> Obj.get k (Url.query u') = Obj.get k (Url.query u))
  /\ filter (fun k => k <> "sz") (Obj.keys (Url.query u'))
     = filter (fun k => k <> "sz") (Obj.keys (Url.query u))
  /\ Url.search u' = None
  /\ Url.protocol u' = Url.protocol u
  /\ Url.slashes u' = Url.slashes u
  /\ Url.auth u' = Url.auth u
  /\ Url.host u' = Url.host u
  /\ Url.port u' = Url.port u
  /\ Url.hostname u' = Url.hostname u
  /\ Url.hash u' = Url.hash u
  /\ Url.pathname u' = Url.pathname u
  /\ Url.path u' = Url.path u
  /\ Url.href u' = Url.href u.

End Pictures.

(** ** The permission-gated accessor: [createCredentialResolve] *)

Module Resolve.
Section Resolve.

(** Identifiers are opaque; lodash's [isEqual] on them is equality of
    values, which is decidable. *)
Context {ID : Type} `{EqDecision ID}.
(** The stored sub-record of one provider, and the (unused) field
    arguments. *)
Context {Credential Args : Type}.

Definition isEqual (a b : ID) : bool := bool_decide (a = b).

Record Node : Type := { id : ID }.

(** The parent object: its [__node] back-reference and the sub-records it
    stores, by provider key. *)
Record Parent : Type := {
  __node : Node;
  stored : gmap string Credential;
}.

Record Credentials : Type := { isAdmin : bool; userID : ID }.
Record Context : Type := { credentials : Credentials }.

(** What a property read [parent[key]] can give. *)
Inductive property : Type :=
| PNode (n : Node)
| PCredential (c : Credential).

(** [parent[key]] on the own properties of [parent], which are [__node]
    and the provider keys it stores a sub-record for; [None] is
    [undefined]. *)
Definition get (parent : Parent) (key : string) : option property :=
  if decide (key = "__node") then Some (PNode (__node parent))
  else PCredential <$> stored parent !! key.

Definition createCredentialResolve (provider : string)
    (parent : Parent) (args : Args) (context : Context)
  : completion (option property) :=
  let credentials := credentials context in
  if isAdmin credentials || isEqual (userID credentials) (id (__node parent))
  then Return (get parent provider)
  else Throw (UserError
    ("User lacks permissions to read nodes of type `User` with fields " +:+
     "`credentials." +:+ provider +:+ "`.")).

(** The caller is an admin or the owner of [parent]. *)
Definition authorized (context : Context) (parent : Parent) : Prop :=
  isAdmin (credentials context) = true
  \/ userID (credentials context) = id (__node parent).

End Resolve.
End Resolve.

(** ** The schema the validator reads *)

(** The schema collaborator supplies [schema.types], a map from type names
    to type records with a [name] and a map of [fields]. *)
Module Schema.

Record TypeRecord (Field : Type) : Type := {
  name : string;
  fields : gmap string Field;
}.

Record Schema (Field : Type) : Type := {
  types : gmap string (TypeRecord Field);
}.

Arguments name {Field} _.
Arguments fields {Field} _.
Arguments types {Field} _.

End Schema.

(** ** The connection-field validator: [IsConnectionValidator] *)

Module IsConnectionValidator.
Section Validator.

(** Fields are opaque to the rule; [isConnection] is imported from
    [schema/fields/isConnection]. *)
Context {Field : Type}.
Variable isConnection : Field -> bool.

(** The rule is an immutable record with one member, [undefined] by
    default. *)
Record IsConnectionValidator : Type := { typeParameter : option string }.

(** [map.get(key)] of an Immutable map with string keys, at a key that
    may be [undefined]. *)
Definition map_get {V : Type} (m : gmap string V) (key : option string)
  : option V :=
  key ≫= (m !!.).

Definition validate (this : IsConnectionValidator)
    (schema : Schema.Schema Field) (name : string)
    (parameters : gmap string string) : completion bool :=
  let existingType :=
    map_get (Schema.types schema) (map_get parameters (typeParameter this)) in
  match existingType with
  | Some existingType =>
      let existingField := Schema.fields existingType !! name in
      match existingField with
      | None =>
          Throw (Error
            ("Type " +:+ dquote +:+ Schema.name existingType +:+ dquote +:+
             " does not have a field " +:+ dquote +:+ name +:+ dquote +:+
             "."))
      | Some existingField =>
          if negb (isConnection existingField) then
            Throw (Error
              ("Field " +:+ dquote +:+ name +:+ dquote +:+ " of " +:+
               dquote +:+ Schema.name existingType +:+ dquote +:+
               " is not a connection. " +:+
               "Expected a connection field."))
          else Return true
      end
  | None => Return true
  end.

End Validator.
End IsConnectionValidator.

(** ** Sample data *)

Module Examples.
Import Pictures.

(** The stored profiles of the specification's examples. *)
Definition googleProfile : CredentialRecord :=
  profile "1" (Some "https://lh3.googleusercontent.com/a/photo?sz=50").

Definition twitterProfile : CredentialRecord :=
  profile "1"
    (Some "http://pbs.twimg.com/profile_images/1/avatar_normal.png").

Definition facebookProfile : CredentialRecord := profile "123" None.

(** A profile whose stored picture is the empty string. *)
Definition emptyPicture : CredentialRecord := profile "1" (Some "").

(** A user who holds a GitHub credential only, the user, another user
    and an admin as callers. *)
Definition user : @Resolve.Parent string CredentialRecord :=
  {| Resolve.__node := {| Resolve.id := "user-1" |};
     Resolve.stored := {[ "github" := profile "42" None ]} |}.

Definition caller (isAdmin : bool) (userID : string)
  : @Resolve.Context string :=
  {| Resolve.credentials :=
       {| Resolve.isAdmin := isAdmin; Resolve.userID := userID |} |}.

(** The same user, seen through a parent object that stores a Twitter
    credential. *)
Definition userTwitter : @Resolve.Parent string CredentialRecord :=
  {| Resolve.__node := {| Resolve.id := "user-1" |};
     Resolve.stored := {[ "twitter" := profile "7" None ]} |}.

(** A Twitter profile whose picture has no size token, and a Google
    profile whose picture has other query parameters around [sz]. *)
Definition twitterOriginal : CredentialRecord :=
  profile "1" (Some "http://pbs.twimg.com/profile_images/1/avatar.png").

Definition googleManyParameters : CredentialRecord :=
  profile "1"
    (Some "https://lh3.googleusercontent.com/a/photo?a=1&sz=50&b=2").

(** A Google profile whose picture has parameters named by numbers. *)
Definition googleNumberedParameters : CredentialRecord :=
  profile "1"
    (Some "https://lh3.googleusercontent.com/a/photo?b=1&2=x&1=y").

(** A schema with one type, [Post], whose field [comments] is a
    connection and whose field [author] is not; a field is modelled by
    the answer of [isConnection] for it. *)
Definition Post : Schema.TypeRecord bool :=
  {| Schema.name := "Post";
     Schema.fields := {[ "comments" := true; "author" := false ]} |}.

Definition schema : Schema.Schema bool :=
  {| Schema.types := {[ "Post" := Post ]} |}.

Definition rule : IsConnectionValidator.IsConnectionValidator :=
  {| IsConnectionValidator.typeParameter := Some "type" |}.

(** The schema with one more field in [Post] and one more type. *)
Definition largerSchema : Schema.Schema bool :=
  {| Schema.types :=
       {[ "Post" :=
            {| Schema.name := "Post";
               Schema.fields :=
                 {[ "comments" := true; "author" := false;
                    "likes" := true ]} |};
          "User" := {| Schema.name := "User"; Schema.fields := ∅ |} ]} |}.

End Examples.

(** * Properties *)

(** ** The permission check *)

Section ResolveFacts.
Import Resolve.

Context {ID : Type} `{EqDecision ID} {Credential Args : Type}.

Implicit Types (parent : @Parent ID Credential) (context : @Context ID).

Lemma authorized_spec context parent :
  isAdmin (credentials context)
  || isEqual (userID (credentials context)) (id (__node parent)) = true
  <-> authorized context parent.
Proof.
  unfold authorized, isEqual.
  rewrite orb_true_iff, bool_decide_eq_true. reflexivity.
Qed.

Lemma resolve_authorized provider parent (args : Args) context :
  authorized context parent ->
  createCredentialResolve provider parent args context
  = Return (get parent provider).
Proof.
  intros Hauth%authorized_spec. unfold createCredentialResolve.
  cbv zeta. rewrite Hauth. reflexivity.
Qed.

Lemma resolve_denied provider parent (args : Args) context :
  ~ authorized context parent ->
  createCredentialResolve provider parent args context
  = Throw (UserError
      ("User lacks permissions to read nodes of type `User` with fields "
       +:+ "`credentials." +:+ provider +:+ "`.")).
Proof.
  intros Hno. unfold createCredentialResolve. cbv zeta.
  destruct (isAdmin _ || isEqual _ _) eqn:E; [|reflexivity].
  apply authorized_spec in E. contradiction.
Qed.

Lemma denial_names_field_path (provider : string) :
  occurs_in ("credentials." +:+ provider)
    ("User lacks permissions to read nodes of type `User` with fields "
     +:+ "`credentials." +:+ provider +:+ "`.").
Proof.
  exists "User lacks permissions to read nodes of type `User` with fields `",
         "`.".
  reflexivity.
Qed.

(** C1. For every provider key, caller context and parent record, the
    resolver returns [parent[provider]], the stored sub-record of the
    provider, when the caller is an admin or the caller's [userID] equals
    [parent.__node.id]; otherwise it throws the permission error, whose
    message names the field path [credentials.<provider>]. An admin is
    served whatever the [userID]. *)
Theorem credential_resolve_permission provider parent (args : Args)
    context :
  (isAdmin (credentials context) = true
   \/ userID (credentials context) = id (__node parent) ->
   createCredentialResolve provider parent args context
   = Return (get parent provider))
  /\ (~ (isAdmin (credentials context) = true
         \/ userID (credentials context) = id (__node parent)) ->
      exists m : string,
        createCredentialResolve provider parent args context
        = Throw (UserError m)
        /\ occurs_in ("credentials." +:+ provider) m)
  /\ (forall uid : ID,
        createCredentialResolve provider parent args
          {| credentials := {| isAdmin := true; userID := uid |} |}
        = Return (get parent provider))
  /\ (provider <> "__node" ->
      get parent provider = PCredential <$> stored parent !! provider).
Proof.
  split; [|split; [|split]].
  - apply resolve_authorized.
  - intros Hno. eexists. split.
    + apply resolve_denied. exact Hno.
    + apply denial_names_field_path.
  - intros uid. apply resolve_authorized. left. reflexivity.
  - intros Hne. unfold get. rewrite decide_False by exact Hne. reflexivity.
Qed.

(** C9. For every authorized caller (an admin, or the owner of the
    parent) and every provider key, the resolver returns [parent[provider]]
    as it is, without checking that a credential is stored: it returns the
    stored sub-record when the parent holds one for the provider, and when
    the parent holds none the result is the absent value ([undefined],
    here [None]) and nothing is thrown. *)
Theorem credential_resolve_absent_credential provider parent (args : Args)
    context
    (Hauth : isAdmin (credentials context) = true
             \/ userID (credentials context) = id (__node parent)) :
  createCredentialResolve provider parent args context
  = Return (get parent provider)
  /\ (provider <> "__node" ->
      (forall c : Credential,
          stored parent !! provider = Some c ->
          createCredentialResolve provider parent args context
          = Return (Some (PCredential c)))
      /\ (stored parent !! provider = None ->
          createCredentialResolve provider parent args context
          = Return None)).
Proof.
  rewrite resolve_authorized by exact Hauth.
  split; [reflexivity|]. intros Hprovider.
  unfold get. rewrite decide_False by exact Hprovider.
  split; [intros c Hstored | intros Hstored]; rewrite Hstored; reflexivity.
Qed.

End ResolveFacts.

(** ** The validator *)

Section ValidatorFacts.
Import IsConnectionValidator.

Context {Field : Type} (isConnection : Field -> bool).

Implicit Types (this : IsConnectionValidator)
  (schema : Schema.Schema Field) (parameters : gmap string string).

(** The type the rule looks at: the type that [schema.types] holds under
    the value of the parameter named by [typeParameter]. *)
Lemma existing_type_lookup this schema parameters p typeName :
  typeParameter this = Some p ->
  parameters !! p = Some typeName ->
  map_get (Schema.types schema) (map_get parameters (typeParameter this))
  = Schema.types schema !! typeName.
Proof. intros -> Hp. cbn. rewrite Hp. reflexivity. Qed.

(** C2. When the lookup of [parameters[typeParameter]] yields no value,
    or the type name it yields is not in [schema.types], [validate]
    checks nothing more and returns [true]. *)
Theorem validate_skips_absent_type this schema name parameters
    (Habsent :
       typeParameter this = None
       \/ (exists p, typeParameter this = Some p /\ parameters !! p = None)
       \/ (exists p typeName,
             typeParameter this = Some p
             /\ parameters !! p = Some typeName
             /\ Schema.types schema !! typeName = None)) :
  validate isConnection this schema name parameters = Return true.
Proof.
  unfold validate. cbv zeta.
  destruct Habsent as [Hp | [(p & Hp & Hv) | (p & t & Hp & Hv & Ht)]].
  - rewrite Hp. reflexivity.
  - rewrite Hp. cbn. rewrite Hv. reflexivity.
  - rewrite (existing_type_lookup _ _ _ _ _ Hp Hv), Ht. reflexivity.
Qed.

(** C3. When the referenced type exists and has no field of the given
    name, [validate] throws the error whose message cites the name of the
    type and the name of the field. *)
Theorem validate_missing_field this schema name parameters p typeName
    existingType
    (Hp : typeParameter this = Some p)
    (Hv : parameters !! p = Some typeName)
    (Ht : Schema.types schema !! typeName = Some existingType)
    (Hf : Schema.fields existingType !! name = None) :
  validate isConnection this schema name parameters
  = Throw (Error
      ("Type " +:+ dquote +:+ Schema.name existingType +:+ dquote +:+
       " does not have a field " +:+ dquote +:+ name +:+ dquote +:+ ".")).
Proof.
  unfold validate. cbv zeta.
  rewrite (existing_type_lookup _ _ _ _ _ Hp Hv), Ht, Hf. reflexivity.
Qed.

(** C4. When the referenced type exists and has the named field,
    [validate] throws the not-a-connection error exactly when
    [isConnection] is false of the field, and returns [true]
    otherwise. *)
Theorem validate_connection_field this schema name parameters p typeName
    existingType existingField
    (Hp : typeParameter this = Some p)
    (Hv : parameters !! p = Some typeName)
    (Ht : Schema.types schema !! typeName = Some existingType)
    (Hf : Schema.fields existingType !! name = Some existingField) :
  (validate isConnection this schema name parameters
   = Throw (Error
       ("Field " +:+ dquote +:+ name +:+ dquote +:+ " of " +:+ dquote +:+
        Schema.name existingType +:+ dquote +:+ " is not a connection. "
        +:+ "Expected a connection field."))
   <-> isConnection existingField = false)
  /\ (validate isConnection this schema name parameters = Return true
      <-> isConnection existingField = true).
Proof.
  unfold validate. cbv zeta.
  rewrite (existing_type_lookup _ _ _ _ _ Hp Hv), Ht, Hf.
  destruct (isConnection existingField); cbn; split; split;
    first [reflexivity | discriminate].
Qed.

End ValidatorFacts.

(** ** Objects *)

Section ObjFacts.
Context {V : Type}.
Implicit Types (o : Obj.t V) (k : string) (v : V).

Lemma get_set_eq o k v : Obj.get k (Obj.set k v o) = Some v.
Proof.
  induction o as [|[k' v'] o IH]; cbn.
  - rewrite decide_True; reflexivity.
  - destruct (decide (k' = k)) as [->|Hne]; cbn.
    + rewrite decide_True; reflexivity.
    + rewrite decide_False by exact Hne. exact IH.
Qed.

Lemma get_set_ne o k k' v :
  k <> k' -> Obj.get k' (Obj.set k v o) = Obj.get k' o.
Proof.
  intros Hne. induction o as [|[k0 v0] o IH]; cbn.
  - rewrite decide_False; [reflexivity | exact Hne].
  - destruct (decide (k0 = k)) as [->|Hk]; cbn.
    + rewrite !decide_False by exact Hne. reflexivity.
    + destruct (decide (k0 = k')); [reflexivity | exact IH].
Qed.

Lemma get_delete_eq o k : Obj.get k (Obj.delete k o) = None.
Proof.
  induction o as [|[k' v'] o IH]; cbn; [reflexivity|].
  destruct (decide (k' = k)) as [->|Hne]; cbn; [exact IH|].
  rewrite decide_False by exact Hne. exact IH.
Qed.

Lemma get_delete_ne o k k' :
  k <> k' -> Obj.get k' (Obj.delete k o) = Obj.get k' o.
Proof.
  intros Hne. induction o as [|[k0 v0] o IH]; cbn; [reflexivity|].
  destruct (decide (k0 = k)) as [->|Hk]; cbn.
  - rewrite decide_False by exact Hne. exact IH.
  - destruct (decide (k0 = k')); [reflexivity | exact IH].
Qed.

(** The other properties keep their order under an assignment and under
    a deletion. *)
Lemma keys_set_others o k v :
  filter (fun k' => k' <> k) (Obj.keys (Obj.set k v o))
  = filter (fun k' => k' <> k) (Obj.keys o).
Proof.
  unfold Obj.keys. induction o as [|[k' v'] o IH]; cbn [Obj.set].
  - rewrite fmap_cons, filter_cons_False; [reflexivity|].
    intros Hk. apply Hk. reflexivity.
  - destruct (decide (k' = k)) as [->|Hne]; rewrite !fmap_cons.
    + rewrite !filter_cons_False; [reflexivity| |];
        intros Hk; apply Hk; reflexivity.
    + rewrite !filter_cons_True by exact Hne. f_equal. exact IH.
Qed.

Lemma keys_delete o k :
  Obj.keys (Obj.delete k o) = filter (fun k' => k' <> k) (Obj.keys o).
Proof.
  unfold Obj.keys. induction o as [|[k' v'] o IH]; cbn [Obj.delete].
  - reflexivity.
  - destruct (decide (k' = k)) as [->|Hne]; rewrite !fmap_cons.
    + rewrite filter_cons_False; [exact IH|].
      intros Hk. apply Hk. reflexivity.
    + rewrite filter_cons_True by exact Hne. f_equal. exact IH.
Qed.

Lemma get_is_Some_keys o k : is_Some (Obj.get k o) <-> k ∈ Obj.keys o.
Proof.
  unfold Obj.keys. induction o as [|[k' v'] o IH]; cbn.
  - split; [intros [? [=]] | intros []%not_elem_of_nil].
  - rewrite elem_of_cons. destruct (decide (k' = k)) as [->|Hne].
    + split; [left; reflexivity | eauto].
    + rewrite IH. split; [right; assumption | intros [->|?]; tauto].
Qed.

End ObjFacts.

(** ** The fields of the credential types *)

Section TypeFacts.
Import GraphQL CredentialTypes.

Lemma base_field_names (providerName : string) :
  Obj.keys (getBaseCredentialFields providerName) = baseFields.
Proof. reflexivity. Qed.

(** C8. For each of the five providers, the type generated for it, which
    is one of the registered types, has the three base fields followed by
    the extras documented for the provider, and no other field. *)
Theorem credential_type_fields :
  Forall
    (fun provider =>
       exists t : GraphQLType,
         credentialType provider = Some t
         /\ {| TypeSet_type := t |} ∈ createCredentialTypes
         /\ Obj.keys (fields t)
            = (baseFields ++ documentedExtras provider)%list
         /\ NoDup (Obj.keys (fields t))
         /\ (forall f : string,
               is_Some (Obj.get f (fields t))
               <-> f ∈ baseFields \/ f ∈ documentedExtras provider))
    providers.
Proof.
  unfold providers.
  repeat (apply List.Forall_cons; [eexists; split; [reflexivity|]|]);
    [..|apply List.Forall_nil].
  all: split; [|split; [|split]].
  all: try (unfold createCredentialTypes; rewrite !elem_of_cons; tauto).
  all: try reflexivity.
  all: try (intros f; rewrite get_is_Some_keys, <- elem_of_app;
            reflexivity).
  all: apply NoDup_ListNoDup; vm_compute.
  all: repeat (apply List.NoDup_cons; [cbn; intuition discriminate|]).
  all: apply List.NoDup_nil.
Qed.

End TypeFacts.

(** ** Strings *)

Section StringFacts.
Implicit Types (s t pat : string) (c : ascii).

Lemma app_cons c s t : String c s +:+ t = String c (s +:+ t).
Proof. reflexivity. Qed.

Lemma app_nil_l s : EmptyString +:+ s = s.
Proof. reflexivity. Qed.

Lemma prefix_app pat s :
  String.prefix pat s = true ->
  s = pat +:+ StringOps.drop (String.length pat) s.
Proof.
  revert s. induction pat as [|c pat IH]; intros s Hp; [reflexivity|].
  destruct s as [|c' s]; cbn in Hp; [discriminate|].
  destruct (ascii_dec c c') as [->|]; [|discriminate].
  rewrite app_cons. cbn. f_equal. apply IH. exact Hp.
Qed.

Lemma app_prefix pat t : String.prefix pat (pat +:+ t) = true.
Proof.
  induction pat as [|c pat IH]; [destruct t; reflexivity|].
  rewrite app_cons. cbn. destruct (ascii_dec c c); [exact IH|congruence].
Qed.

Lemma not_prefix_no_occurrence_at_0 pat s post :
  String.prefix pat s = false -> s <> EmptyString +:+ pat +:+ post.
Proof.
  intros Hp ->. rewrite app_nil_l, app_prefix in Hp. discriminate.
Qed.

Lemma find_split pat s n :
  StringOps.find pat s = Some n ->
  s = StringOps.take n s +:+ pat +:+ StringOps.drop (n + String.length pat) s
  /\ String.length (StringOps.take n s) = n.
Proof.
  revert n. induction s as [|c s IH]; intros n Hfind;
    cbn [StringOps.find] in Hfind.
  - destruct (String.prefix pat EmptyString) eqn:Hp; [|discriminate].
    injection Hfind as <-. split; [exact (prefix_app _ _ Hp) | reflexivity].
  - destruct (String.prefix pat (String c s)) eqn:Hp.
    + injection Hfind as <-.
      split; [exact (prefix_app _ _ Hp) | reflexivity].
    + destruct (StringOps.find pat s) as [m|] eqn:Hm; [|discriminate].
      injection Hfind as <-. destruct (IH m eq_refl) as [Hs Hlen].
      cbn [StringOps.take StringOps.drop Nat.add String.length].
      rewrite app_cons, <- Hs, Hlen. split; reflexivity.
Qed.

Lemma find_none pat s : StringOps.find pat s = None -> ~ occurs_in pat s.
Proof.
  induction s as [|c s IH]; cbn [StringOps.find]; intros Hfind.
  - destruct (String.prefix pat EmptyString) eqn:Hp; [discriminate|].
    intros ([|c' pre] & post & Hs); [|discriminate].
    exact (not_prefix_no_occurrence_at_0 _ _ _ Hp Hs).
  - destruct (String.prefix pat (String c s)) eqn:Hp; [discriminate|].
    destruct (StringOps.find pat s) eqn:Hm; [discriminate|].
    intros ([|c' pre] & post & Hs).
    + exact (not_prefix_no_occurrence_at_0 _ _ _ Hp Hs).
    + rewrite app_cons in Hs. injection Hs as _ Hs.
      apply (IH eq_refl). exists pre, post. exact Hs.
Qed.

Lemma find_leftmost pat s n pre post :
  StringOps.find pat s = Some n ->
  s = pre +:+ pat +:+ post ->
  (n <= String.length pre)%nat.
Proof.
  revert n pre. induction s as [|c s IH]; intros n pre Hfind Hs;
    cbn [StringOps.find] in Hfind.
  - destruct (String.prefix pat EmptyString); [|discriminate].
    injection Hfind as <-. lia.
  - destruct (String.prefix pat (String c s)) eqn:Hp.
    + injection Hfind as <-. lia.
    + destruct (StringOps.find pat s) as [m|] eqn:Hm; [|discriminate].
      injection Hfind as <-. destruct pre as [|c' pre].
      * exfalso. exact (not_prefix_no_occurrence_at_0 _ _ _ Hp Hs).
      * rewrite app_cons in Hs. injection Hs as _ Hs.
        cbn. apply le_n_S. exact (IH m pre eq_refl Hs).
Qed.

Lemma app_inj_length (pre pre' s t : string) :
  String.length pre = String.length pre' ->
  pre +:+ s = pre' +:+ t -> pre = pre' /\ s = t.
Proof.
  revert pre'. induction pre as [|c pre IH]; intros [|c' pre'] Hlen Heq;
    try discriminate.
  - split; [reflexivity | exact Heq].
  - rewrite !app_cons in Heq. injection Heq as -> Heq.
    injection Hlen as Hlen. destruct (IH pre' Hlen Heq) as [-> ->].
    split; reflexivity.
Qed.

(** A replacement string without a dollar sign stands for itself. *)
Lemma expand_plain matched before after replacement :
  StringOps.plain replacement = true ->
  StringOps.expand matched before after replacement = replacement.
Proof.
  unfold StringOps.plain.
  induction replacement as [|c r IH]; [reflexivity|].
  cbn [StringOps.all_chars StringOps.expand].
  intros [Hc Hr]%andb_true_iff. apply negb_true_iff in Hc. rewrite Hc.
  f_equal. exact (IH Hr).
Qed.

(** What [replace] computes. *)
Lemma replace_spec pat replacement s :
  StringOps.plain replacement = true ->
  first_replaced pat replacement s (StringOps.replace pat replacement s).
Proof.
  intros Hplain. unfold StringOps.replace.
  destruct (StringOps.find pat s) as [n|] eqn:Hfind.
  - left. destruct (find_split _ _ _ Hfind) as [Hs Hlen].
    exists (StringOps.take n s),
           (StringOps.drop (n + String.length pat) s).
    split; [exact Hs|]. split.
    + intros pre' post' Hs'. rewrite Hlen.
      exact (find_leftmost _ _ _ _ _ Hfind Hs').
    + cbv zeta. rewrite (expand_plain _ _ _ _ Hplain). reflexivity.
  - right. split; [exact (find_none _ _ Hfind) | reflexivity].
Qed.

(** The replacement at an occurrence known to be the leftmost one. *)
Lemma replace_leftmost pat replacement pre post :
  StringOps.plain replacement = true ->
  (forall pre' post' : string,
      pre +:+ pat +:+ post = pre' +:+ pat +:+ post' ->
      (String.length pre <= String.length pre')%nat) ->
  StringOps.replace pat replacement (pre +:+ pat +:+ post)
  = pre +:+ replacement +:+ post.
Proof.
  intros Hplain Hmin.
  destruct (replace_spec pat replacement (pre +:+ pat +:+ post) Hplain)
    as [(pre0 & post0 & Hs & Hmin0 & ->) | [Hno _]].
  - assert (Hlen : String.length pre0 = String.length pre).
    { apply Nat.le_antisymm;
        [apply (Hmin0 pre post) | apply (Hmin pre0 post0)];
        [reflexivity | exact Hs]. }
    destruct (app_inj_length _ _ _ _ Hlen (eq_sym Hs)) as [-> Hrest].
    apply (inj (String.append pat)) in Hrest. rewrite Hrest. reflexivity.
  - exfalso. apply Hno. exists pre, post. reflexivity.
Qed.

End StringFacts.

(** ** The Twitter picture *)

Section TwitterFacts.
Import Pictures.

Lemma twitterPictureSizes_eq :
  twitterPictureSizes = ["normal"; "bigger"; "mini"; "original"].
Proof. reflexivity. Qed.

Lemma twitterArgs_given (size : string) :
  arg (twitterArgs (Some size)) "size" = Str size.
Proof. reflexivity. Qed.

Lemma twitterArgs_default : arg (twitterArgs None) "size" = Str "original".
Proof. reflexivity. Qed.

Lemma truthy_nonempty (s : string) : s <> "" -> truthy (Str s) = true.
Proof.
  intros Hs. cbn. apply negb_true_iff, String.eqb_neq. exact Hs.
Qed.

Lemma twitterPicture_replace parent url size :
  picture parent = Some url -> url <> "" ->
  twitterPicture parent (twitterArgs (Some size))
  = Some (StringOps.replace "_normal." (sizeToken size) url).
Proof.
  intros Hpicture Hurl. unfold twitterPicture.
  rewrite Hpicture, twitterArgs_given. cbn [attribute toString].
  rewrite (truthy_nonempty _ Hurl). cbn [negb]. unfold sizeToken.
  destruct (decide (size = "original")) as [->|Hne].
  - rewrite decide_True; reflexivity.
  - rewrite decide_False; [reflexivity|]. intros [=]. contradiction.
Qed.

(** C5, amended. For every stored Twitter picture URL that is not empty
    and each size [normal], [bigger], [mini], [original], the resolver
    returns the URL with its leftmost [_normal.] replaced by [_<size>.],
    and by [.] alone for [original]; [original] is the size when the
    query gives none. *)
Theorem twitter_picture_size parent url size
    (Hpicture : picture parent = Some url)
    (Hurl : url <> "")
    (Hsize : size ∈ twitterPictureSizes) :
  (exists result : string,
      twitterPicture parent (twitterArgs (Some size)) = Some result
      /\ first_replaced "_normal." (sizeToken size) url result)
  /\ (forall pre post : string,
        url = pre +:+ "_normal." +:+ post ->
        (forall pre' post' : string,
            url = pre' +:+ "_normal." +:+ post' ->
            (String.length pre <= String.length pre')%nat) ->
        twitterPicture parent (twitterArgs (Some size))
        = Some (pre +:+ sizeToken size +:+ post))
  /\ twitterPicture parent (twitterArgs None)
     = twitterPicture parent (twitterArgs (Some "original")).
Proof.
  rewrite (twitterPicture_replace _ _ _ Hpicture Hurl).
  assert (Hplain : StringOps.plain (sizeToken size) = true).
  { rewrite twitterPictureSizes_eq, !elem_of_cons, elem_of_nil in Hsize.
    destruct Hsize as [-> | [-> | [-> | [-> | []]]]]; reflexivity. }
  split; [|split].
  - eexists. split; [reflexivity | exact (replace_spec _ _ _ Hplain)].
  - intros pre post -> Hmin. f_equal.
    exact (replace_leftmost _ _ _ _ Hplain Hmin).
  - reflexivity.
Qed.

End TwitterFacts.

(** ** The Facebook picture *)

Section FacebookFacts.
Import Pictures.

Lemma encode_uint (d : Decimal.uint) :
  Qs.encode (NilEmpty.string_of_uint d) = NilEmpty.string_of_uint d.
Proof. induction d; cbn; [reflexivity | f_equal; assumption ..]. Qed.

(** The decimal form of an integer has no character to escape. *)
Lemma encode_number (n : Z) :
  Qs.encode (number_to_string n) = number_to_string n.
Proof.
  unfold number_to_string, NilZero.string_of_int, NilZero.string_of_uint.
  destruct (Z.to_int n) as [d|d]; destruct d; try reflexivity;
    try (change (Qs.encode (String ?c ?s)) with (String c (Qs.encode s));
         rewrite encode_uint; reflexivity).
  all: cbn; repeat f_equal; apply encode_uint.
Qed.

(** The query string of the picked arguments, by what each of them
    holds. *)
Lemma stringify_width_height (args : gmap string value) :
  Qs.stringify (Lodash.pick args ["width"; "height"])
    {| Qs.skipNulls := true |}
  = StringOps.join "&"
      (Qs.pieces {| Qs.skipNulls := true |} "width" (arg args "width")
       ++ Qs.pieces {| Qs.skipNulls := true |} "height"
            (arg args "height")).
Proof.
  unfold Qs.stringify, Lodash.pick, arg. cbn.
  destruct (args !! "width") as [w|], (args !! "height") as [h|]; cbn;
    rewrite ?app_nil_r; reflexivity.
Qed.

(** C7. The Facebook resolver returns
    [https://graph.facebook.com/v2.3/<parent.id>/picture], followed by
    [?width=<w>&height=<h>] when both arguments are given, by the one
    given when the other is missing or [null], and by nothing when none
    is given. *)
Theorem facebook_picture_url parent (args : gmap string value) :
  (forall w h : Z,
      arg args "width" = Int w -> arg args "height" = Int h ->
      facebookPicture parent args
      = ("https://graph.facebook.com/v2.3/" +:+ id parent +:+ "/picture")
        +:+ "?width=" +:+ number_to_string w
        +:+ "&height=" +:+ number_to_string h)
  /\ (forall w : Z,
        arg args "width" = Int w ->
        Executor.nullish (arg args "height") = true ->
        facebookPicture parent args
        = ("https://graph.facebook.com/v2.3/" +:+ id parent +:+ "/picture")
          +:+ "?width=" +:+ number_to_string w)
  /\ (forall h : Z,
        Executor.nullish (arg args "width") = true ->
        arg args "height" = Int h ->
        facebookPicture parent args
        = ("https://graph.facebook.com/v2.3/" +:+ id parent +:+ "/picture")
          +:+ "?height=" +:+ number_to_string h)
  /\ (Executor.nullish (arg args "width") = true ->
      Executor.nullish (arg args "height") = true ->
      facebookPicture parent args
      = "https://graph.facebook.com/v2.3/" +:+ id parent +:+ "/picture").
Proof.
  unfold facebookPicture. rewrite stringify_width_height.
  split; [|split; [|split]].
  - intros w h -> ->. cbn [Qs.pieces toString]. rewrite !encode_number.
    reflexivity.
  - intros w -> Hh. cbn [Qs.pieces toString]. rewrite encode_number.
    destruct (arg args "height"); try discriminate; reflexivity.
  - intros h Hw ->. cbn [Qs.pieces toString]. rewrite encode_number.
    destruct (arg args "width"); try discriminate; reflexivity.
  - intros Hw Hh.
    destruct (arg args "width"), (arg args "height"); try discriminate;
      reflexivity.
Qed.

End FacebookFacts.

(** ** The Google picture *)

Section GoogleFacts.
Import Pictures.

Variable U : Url.Lib.

Lemma sz_changed_set (u : Url.UrlObject) (v : Url.qvalue) :
  sz_changed (Some v) u
    (Url.delete_search (Url.set_query (Obj.set "sz" v (Url.query u)) u)).
Proof.
  unfold sz_changed.
  cbn [Url.query Url.search Url.delete_search Url.set_query].
  split; [apply get_set_eq|].
  split; [intros k Hk; apply get_set_ne; congruence|].
  split; [apply keys_set_others|]. repeat split; reflexivity.
Qed.

Lemma sz_changed_delete (u : Url.UrlObject) :
  sz_changed None u
    (Url.delete_search (Url.set_query (Obj.delete "sz" (Url.query u)) u)).
Proof.
  unfold sz_changed.
  cbn [Url.query Url.search Url.delete_search Url.set_query].
  split; [apply get_delete_eq|].
  split; [intros k Hk; apply get_delete_ne; congruence|].
  split; [|repeat split; reflexivity].
  rewrite keys_delete. apply list_filter_filter_l. tauto.
Qed.

(** The result for a stored URL that is not empty, by the truthiness of
    the size. *)
Lemma googlePicture_nonempty parent url (args : gmap string value) :
  picture parent = Some url -> url <> "" ->
  googlePicture U parent args
  = Some (Url.format U (Url.delete_search (Url.set_query
      (if truthy (arg args "size")
       then Obj.set "sz" (qvalue_of (arg args "size"))
              (Url.query (Url.parse U url))
       else Obj.delete "sz" (Url.query (Url.parse U url)))
      (Url.parse U url)))).
Proof.
  intros Hpicture Hurl. unfold googlePicture.
  rewrite Hpicture. cbn [attribute toString].
  rewrite (truthy_nonempty _ Hurl). reflexivity.
Qed.

(** Only the truthiness of the size decides between the two branches. *)
Lemma googlePicture_falsy parent (args : gmap string value) :
  truthy (arg args "size") = false ->
  googlePicture U parent args = googlePicture U parent ∅.
Proof.
  intros Hfalsy. unfold googlePicture. rewrite Hfalsy. reflexivity.
Qed.

End GoogleFacts.

Section GoogleClaims.
Import Pictures Examples.

(** C6, amended. For every stored Google picture URL that is not empty,
    the resolver called with a size other than zero returns the URL
    formatted from the parsed one with the query property [sz] set to the
    size, and called without a size it returns the URL formatted with
    [sz] removed; the other query properties and the other parts of the
    URL are kept. So the stored URL [.../a/photo?sz=50] gives
    [.../a/photo?sz=100] for the size 100 and [.../a/photo] for no size. *)
Theorem google_picture_size (U : Url.Lib) parent url
    (args : gmap string value)
    (Hpicture : picture parent = Some url)
    (Hurl : url <> "") :
  (forall n : Z,
      arg args "size" = Int n -> n <> 0%Z ->
      exists u' : Url.UrlObject,
        googlePicture U parent args = Some (Url.format U u')
        /\ sz_changed (Some (Url.QNumber n)) (Url.parse U url) u')
  /\ (Executor.nullish (arg args "size") = true ->
      exists u' : Url.UrlObject,
        googlePicture U parent args = Some (Url.format U u')
        /\ sz_changed None (Url.parse U url) u')
  /\ googlePicture NodeUrl.lib googleProfile {[ "size" := Int 100 ]}
     = Some "https://lh3.googleusercontent.com/a/photo?sz=100"
  /\ googlePicture NodeUrl.lib googleProfile ∅
     = Some "https://lh3.googleusercontent.com/a/photo".
Proof.
  rewrite (googlePicture_nonempty U _ _ _ Hpicture Hurl).
  split; [|split; [|split; reflexivity]].
  - intros n -> Hn. eexists. split; [reflexivity|].
    cbn [truthy qvalue_of]. apply Z.eqb_neq in Hn. rewrite Hn. cbn [negb].
    apply sz_changed_set.
  - intros Hnull. eexists. split; [reflexivity|].
    destruct (arg args "size"); try discriminate; apply sz_changed_delete.
Qed.

(** C10, amended. The Google resolver looks at the truthiness of the
    size: with a falsy size such as 0 it returns what it returns without
    a size, which for a stored URL that is not empty is the URL formatted
    with [sz] removed, not with [sz] set to 0. *)
Theorem google_picture_falsy_size (U : Url.Lib) parent
    (args : gmap string value)
    (Hfalsy : truthy (arg args "size") = false) :
  googlePicture U parent args = googlePicture U parent ∅
  /\ (forall url : string,
        picture parent = Some url -> url <> "" ->
        exists u' : Url.UrlObject,
          googlePicture U parent args = Some (Url.format U u')
          /\ sz_changed None (Url.parse U url) u')
  /\ googlePicture NodeUrl.lib googleProfile {[ "size" := Int 0 ]}
     = Some "https://lh3.googleusercontent.com/a/photo".
Proof.
  split; [exact (googlePicture_falsy U _ _ Hfalsy)|].
  split; [|reflexivity].
  intros url Hpicture Hurl.
  rewrite (googlePicture_nonempty U _ _ _ Hpicture Hurl), Hfalsy.
  eexists. split; [reflexivity | apply sz_changed_delete].
Qed.

End GoogleClaims.

(** ** The properties at the sample data *)

Section Instances.
Import Pictures Examples.

(** The owner and an admin read the stored GitHub credential; another
    user is refused. *)
Lemma credential_resolve_permission_witness :
  Resolve.createCredentialResolve "github" user (∅ : gmap string value)
    (caller false "user-1")
  = Return (Some (Resolve.PCredential (profile "42" None)))
  /\ (exists m : string,
        Resolve.createCredentialResolve "github" user
          (∅ : gmap string value) (caller false "user-2")
        = Throw (UserError m)
        /\ occurs_in "credentials.github" m)
  /\ Resolve.createCredentialResolve "github" user (∅ : gmap string value)
       (caller true "user-2")
     = Return (Some (Resolve.PCredential (profile "42" None)))
  /\ Resolve.createCredentialResolve "github" user (∅ : gmap string value)
       (caller false "user-2")
     = Throw (UserError
         ("User lacks permissions to read nodes of type `User` with " +:+
          "fields `credentials.github`.")).
Proof.
  split; [|split; [|split; [|reflexivity]]].
  - apply (credential_resolve_permission "github" user
             (∅ : gmap string value) (caller false "user-1")).
    right. reflexivity.
  - apply (credential_resolve_permission "github" user
             (∅ : gmap string value) (caller false "user-2")).
    intros [H | H]; discriminate H.
  - apply (credential_resolve_permission "github" user
             (∅ : gmap string value) (caller false "user-1")).
Defined.

(** The owner reads the stored GitHub credential, and [undefined] for
    Twitter, for which nothing is stored. *)
Lemma credential_resolve_absent_credential_witness :
  Resolve.stored user !! "twitter" = None
  /\ Resolve.createCredentialResolve "twitter" user
       (∅ : gmap string value) (caller false "user-1")
     = Return None
  /\ Resolve.createCredentialResolve "twitter" user
       (∅ : gmap string value) (caller false "user-1")
     = Return (Resolve.get user "twitter")
  /\ Resolve.createCredentialResolve "github" user
       (∅ : gmap string value) (caller false "user-1")
     = Return (Some (Resolve.PCredential (profile "42" None))).
Proof.
  assert (Hauth : Resolve.isAdmin (Resolve.credentials (caller false "user-1"))
                  = true
                  \/ Resolve.userID (Resolve.credentials
                                       (caller false "user-1"))
                     = Resolve.id (Resolve.__node user))
    by (right; reflexivity).
  destruct (credential_resolve_absent_credential "twitter" user
              (∅ : gmap string value) (caller false "user-1") Hauth)
    as [Hget Htwitter].
  destruct (credential_resolve_absent_credential "github" user
              (∅ : gmap string value) (caller false "user-1") Hauth)
    as [_ Hgithub].
  split; [reflexivity|]. split; [|split].
  - apply Htwitter; [discriminate | reflexivity].
  - exact Hget.
  - apply Hgithub; [discriminate | reflexivity].
Defined.

(** A type that the schema does not have, and a parameter that is not
    given. *)
Lemma validate_skips_absent_type_witness :
  IsConnectionValidator.validate (fun f : bool => f) rule schema "comments"
    {[ "type" := "Comment" ]}
  = Return true
  /\ IsConnectionValidator.validate (fun f : bool => f) rule schema
       "comments" ∅
     = Return true.
Proof.
  split.
  - apply (validate_skips_absent_type (fun f : bool => f) rule schema
             "comments" {[ "type" := "Comment" ]}).
    right. right. exists "type", "Comment".
    split; [reflexivity|]. split; reflexivity.
  - apply (validate_skips_absent_type (fun f : bool => f) rule schema
             "comments" ∅).
    right. left. exists "type". split; reflexivity.
Defined.

(** [Post] has no field [likes]. *)
Lemma validate_missing_field_witness :
  IsConnectionValidator.validate (fun f : bool => f) rule schema "likes"
    {[ "type" := "Post" ]}
  = Throw (Error
      ("Type " +:+ dquote +:+ "Post" +:+ dquote +:+
       " does not have a field " +:+ dquote +:+ "likes" +:+ dquote +:+
       ".")).
Proof.
  apply (validate_missing_field (fun f : bool => f) rule schema "likes"
           {[ "type" := "Post" ]} "type" "Post" Post);
    reflexivity.
Defined.

(** [comments] is a connection of [Post], [author] is not. *)
Lemma validate_connection_field_witness :
  IsConnectionValidator.validate (fun f : bool => f) rule schema "comments"
    {[ "type" := "Post" ]}
  = Return true
  /\ IsConnectionValidator.validate (fun f : bool => f) rule schema
       "author" {[ "type" := "Post" ]}
     = Throw (Error
         ("Field " +:+ dquote +:+ "author" +:+ dquote +:+ " of " +:+
          dquote +:+ "Post" +:+ dquote +:+ " is not a connection. " +:+
          "Expected a connection field.")).
Proof.
  split.
  - apply (validate_connection_field (fun f : bool => f) rule schema
             "comments" {[ "type" := "Post" ]} "type" "Post" Post true);
      reflexivity.
  - apply (validate_connection_field (fun f : bool => f) rule schema
             "author" {[ "type" := "Post" ]} "type" "Post" Post false);
      reflexivity.
Defined.

(** The Twitter example of the specification. *)
Lemma twitter_picture_size_witness :
  twitterPicture twitterProfile (twitterArgs (Some "bigger"))
  = Some "http://pbs.twimg.com/profile_images/1/avatar_bigger.png"
  /\ twitterPicture twitterProfile (twitterArgs (Some "original"))
     = Some "http://pbs.twimg.com/profile_images/1/avatar.png"
  /\ twitterPicture twitterProfile (twitterArgs None)
     = twitterPicture twitterProfile (twitterArgs (Some "original")).
Proof.
  assert (Hleft : forall pre' post' : string,
             "http://pbs.twimg.com/profile_images/1/avatar_normal.png"
             = pre' +:+ "_normal." +:+ post' ->
             (String.length "http://pbs.twimg.com/profile_images/1/avatar"
              <= String.length pre')%nat).
  { intros pre' post'. apply find_leftmost. reflexivity. }
  assert (Hurl : "http://pbs.twimg.com/profile_images/1/avatar_normal.png"
                 <> "") by discriminate.
  assert (Hbigger : "bigger" ∈ twitterPictureSizes)
    by (rewrite twitterPictureSizes_eq, !elem_of_cons; tauto).
  assert (Horiginal : "original" ∈ twitterPictureSizes)
    by (rewrite twitterPictureSizes_eq, !elem_of_cons; tauto).
  destruct (twitter_picture_size twitterProfile _ "bigger" eq_refl Hurl
              Hbigger) as (_ & Hb & _).
  destruct (twitter_picture_size twitterProfile _ "original" eq_refl Hurl
              Horiginal) as (_ & Ho & Hdefault).
  split; [|split].
  - exact (Hb "http://pbs.twimg.com/profile_images/1/avatar" "png"
             eq_refl Hleft).
  - exact (Ho "http://pbs.twimg.com/profile_images/1/avatar" "png"
             eq_refl Hleft).
  - exact Hdefault.
Defined.

(** The resolver gives [null] for a stored picture that is the empty
    string, where replacing the token in it would give the empty
    string. *)
Lemma twitter_picture_empty_url :
  picture emptyPicture = Some ""
  /\ twitterPicture emptyPicture (twitterArgs (Some "bigger")) = None
  /\ twitterPicture emptyPicture (twitterArgs (Some "bigger"))
     <> Some (StringOps.replace "_normal." (sizeToken "bigger") "").
Proof. split; [reflexivity|]. split; [reflexivity | discriminate]. Qed.

(** The Facebook example of the specification, and a [null] width. *)
Lemma facebook_picture_url_witness :
  facebookPicture facebookProfile {[ "width" := Int 50; "height" := Int 50 ]}
  = "https://graph.facebook.com/v2.3/123/picture?width=50&height=50"
  /\ facebookPicture facebookProfile {[ "width" := Null; "height" := Int 50 ]}
     = "https://graph.facebook.com/v2.3/123/picture?height=50"
  /\ facebookPicture facebookProfile ∅
     = "https://graph.facebook.com/v2.3/123/picture".
Proof.
  split; [|split].
  - destruct (facebook_picture_url facebookProfile
                {[ "width" := Int 50; "height" := Int 50 ]}) as (H & _).
    exact (H 50%Z 50%Z eq_refl eq_refl).
  - destruct (facebook_picture_url facebookProfile
                {[ "width" := Null; "height" := Int 50 ]})
      as (_ & _ & H & _).
    exact (H 50%Z eq_refl eq_refl).
  - destruct (facebook_picture_url facebookProfile ∅) as (_ & _ & _ & H).
    exact (H eq_refl eq_refl).
Defined.

(** The Google example of the specification, for the size 100. *)
Lemma google_picture_size_witness :
  (exists u' : Url.UrlObject,
      googlePicture NodeUrl.lib googleProfile {[ "size" := Int 100 ]}
      = Some (Url.format NodeUrl.lib u')
      /\ sz_changed (Some (Url.QNumber 100))
           (Url.parse NodeUrl.lib
              "https://lh3.googleusercontent.com/a/photo?sz=50") u')
  /\ googlePicture NodeUrl.lib googleProfile {[ "size" := Int 100 ]}
     = Some "https://lh3.googleusercontent.com/a/photo?sz=100".
Proof.
  split.
  - apply (google_picture_size NodeUrl.lib googleProfile
             "https://lh3.googleusercontent.com/a/photo?sz=50"
             {[ "size" := Int 100 ]} eq_refl);
      [discriminate | reflexivity | discriminate].
  - apply (google_picture_size NodeUrl.lib googleProfile
             "https://lh3.googleusercontent.com/a/photo?sz=50"
             {[ "size" := Int 100 ]} eq_refl).
    discriminate.
Defined.

(** With the size 0 the resolver removes [sz]: the result is not the URL
    with [sz] set to 0. With an empty stored picture it gives [null]
    whatever the size. *)
Lemma google_picture_size_zero :
  googlePicture NodeUrl.lib googleProfile {[ "size" := Int 0 ]}
  = Some "https://lh3.googleusercontent.com/a/photo"
  /\ Url.format NodeUrl.lib
       (Url.delete_search
          (Url.set_query
             (Obj.set "sz" (Url.QNumber 0)
                (Url.query (Url.parse NodeUrl.lib
                   "https://lh3.googleusercontent.com/a/photo?sz=50")))
             (Url.parse NodeUrl.lib
                "https://lh3.googleusercontent.com/a/photo?sz=50")))
     = "https://lh3.googleusercontent.com/a/photo?sz=0"
  /\ googlePicture NodeUrl.lib googleProfile {[ "size" := Int 0 ]}
     <> Some "https://lh3.googleusercontent.com/a/photo?sz=0"
  /\ googlePicture NodeUrl.lib emptyPicture {[ "size" := Int 100 ]} = None.
Proof.
  split; [reflexivity|]. split; [reflexivity|].
  split; [discriminate | reflexivity].
Qed.

(** The size 0 on the Google example. *)
Lemma google_picture_falsy_size_witness :
  googlePicture NodeUrl.lib googleProfile {[ "size" := Int 0 ]}
  = googlePicture NodeUrl.lib googleProfile ∅
  /\ googlePicture NodeUrl.lib googleProfile {[ "size" := Int 0 ]}
     = Some "https://lh3.googleusercontent.com/a/photo".
Proof.
  assert (Hfalsy : truthy (arg {[ "size" := Int 0 ]} "size") = false)
    by reflexivity.
  destruct (google_picture_falsy_size NodeUrl.lib googleProfile
              {[ "size" := Int 0 ]} Hfalsy) as (Hsame & _ & Hurl).
  split; [exact Hsame | exact Hurl].
Defined.

(** For a stored picture that is the empty string the resolver gives
    [null], with the size 0 too, and not a URL with [sz] removed. *)
Lemma google_picture_empty_url :
  picture emptyPicture = Some ""
  /\ googlePicture NodeUrl.lib emptyPicture {[ "size" := Int 0 ]} = None
  /\ googlePicture NodeUrl.lib emptyPicture {[ "size" := Int 0 ]}
     <> Some (Url.format NodeUrl.lib
                (Url.delete_search
                   (Url.set_query
                      (Obj.delete "sz"
                         (Url.query (Url.parse NodeUrl.lib "")))
                      (Url.parse NodeUrl.lib "")))).
Proof. split; [reflexivity|]. split; [reflexivity | discriminate]. Qed.

End Instances.

(** * Further properties of the code *)

(** ** Strings, continued *)

Section MoreStringFacts.
Implicit Types (s t : string) (c : ascii).

Lemma length_app s t :
  String.length (s +:+ t) = (String.length s + String.length t)%nat.
Proof.
  induction s as [|c s IH]; [reflexivity|].
  rewrite app_cons. cbn. rewrite IH. reflexivity.
Qed.

Lemma app_cancel_r s s' t : s +:+ t = s' +:+ t -> s = s'.
Proof.
  intros Heq.
  assert (Hlen : String.length s = String.length s').
  { apply (f_equal String.length) in Heq. rewrite !length_app in Heq. lia. }
  exact (proj1 (app_inj_length _ _ _ _ Hlen Heq)).
Qed.

Lemma app_nonempty_ne s c t : s +:+ String c t <> s.
Proof.
  intros Heq. apply (f_equal String.length) in Heq.
  rewrite length_app in Heq. cbn in Heq. lia.
Qed.

(** Replacing a text by itself changes nothing. *)
Lemma replace_same pat s :
  StringOps.plain pat = true -> StringOps.replace pat pat s = s.
Proof.
  intros Hplain.
  destruct (replace_spec pat pat s Hplain)
    as [(pre & post & Hs & _ & ->) | [_ ->]]; [symmetry; exact Hs|reflexivity].
Qed.

Lemma replace_no_occurrence pat replacement s :
  StringOps.plain replacement = true ->
  ~ occurs_in pat s -> StringOps.replace pat replacement s = s.
Proof.
  intros Hplain Hno.
  destruct (replace_spec pat replacement s Hplain)
    as [(pre & post & Hs & _ & _) | [_ ->]]; [|reflexivity].
  exfalso. apply Hno. exists pre, post. exact Hs.
Qed.

(** A replacement that changes nothing replaces the text by itself. *)
Lemma replace_fixed pat replacement s :
  StringOps.plain replacement = true ->
  StringOps.replace pat replacement s = s ->
  replacement = pat \/ ~ occurs_in pat s.
Proof.
  intros Hplain Hfix.
  destruct (replace_spec pat replacement s Hplain)
    as [(pre & post & Hs & _ & Hr) | [Hno _]]; [left | right; exact Hno].
  rewrite Hfix, Hs in Hr. apply (inj (String.append pre)) in Hr.
  apply app_cancel_r in Hr. symmetry. exact Hr.
Qed.

End MoreStringFacts.

(** ** The picture resolvers, continued *)

Section MorePictureFacts.
Import Pictures Examples.

Lemma sizeToken_plain (size : string) :
  size ∈ twitterPictureSizes -> StringOps.plain (sizeToken size) = true.
Proof.
  rewrite twitterPictureSizes_eq, !elem_of_cons, elem_of_nil.
  intros [-> | [-> | [-> | [-> | []]]]]; reflexivity.
Qed.

Lemma sizeToken_normal (size : string) :
  size ∈ twitterPictureSizes -> sizeToken size = "_normal." -> size = "normal".
Proof.
  rewrite twitterPictureSizes_eq, !elem_of_cons, elem_of_nil.
  intros [-> | [-> | [-> | [-> | []]]]]; [reflexivity | discriminate ..].
Qed.

(** X1. For a stored Twitter picture URL that is not empty and a size of
    the enumeration, the resolver returns the URL unchanged exactly when
    the size is [normal] or the URL has no [_normal.] in it. *)
Theorem twitter_picture_unchanged_iff parent url size
    (Hpicture : picture parent = Some url)
    (Hurl : url <> "")
    (Hsize : size ∈ twitterPictureSizes) :
  twitterPicture parent (twitterArgs (Some size)) = Some url
  <-> size = "normal" \/ ~ occurs_in "_normal." url.
Proof.
  rewrite (twitterPicture_replace _ _ _ Hpicture Hurl).
  pose proof (sizeToken_plain _ Hsize) as Hplain. split.
  - intros [= Hfix].
    destruct (replace_fixed _ _ _ Hplain Hfix) as [Htoken | Hno].
    + left. exact (sizeToken_normal _ Hsize Htoken).
    + right. exact Hno.
  - intros [-> | Hno]; f_equal.
    + apply replace_same. reflexivity.
    + exact (replace_no_occurrence _ _ _ Hplain Hno).
Qed.

(** X2. The Twitter and the Google resolver return [null] exactly when
    the stored picture is missing or is the empty string, whatever the
    arguments (and, for Google, whatever the URL library does). *)
Theorem picture_null_iff (U : Url.Lib) parent (args : gmap string value) :
  (twitterPicture parent args = None
   <-> picture parent = None \/ picture parent = Some "")
  /\ (googlePicture U parent args = None
      <-> picture parent = None \/ picture parent = Some "").
Proof.
  unfold twitterPicture, googlePicture.
  destruct (picture parent) as [[|c url]|]; cbn [attribute truthy negb];
    cbn [String.eqb negb].
  - split; split; auto.
  - destruct (decide (arg args "size" = Str "original"));
      split; split; intros H; try discriminate H;
      destruct H as [H | H]; discriminate H.
  - split; split; auto.
Qed.

Lemma replace_found pat replacement s i :
  StringOps.find pat s = Some i ->
  StringOps.plain replacement = true ->
  StringOps.replace pat replacement s
  = StringOps.take i s +:+ replacement
    +:+ StringOps.drop (i + String.length pat) s.
Proof.
  intros Hfind Hplain. unfold StringOps.replace. rewrite Hfind. cbv zeta.
  rewrite (expand_plain _ _ _ _ Hplain). reflexivity.
Qed.

Lemma sizeToken_inj (size size' : string) :
  size ∈ twitterPictureSizes -> size' ∈ twitterPictureSizes ->
  sizeToken size = sizeToken size' -> size = size'.
Proof.
  rewrite twitterPictureSizes_eq. intros Hsize Hsize' Heq.
  rewrite !elem_of_cons, elem_of_nil in Hsize, Hsize'.
  destruct Hsize as [-> | [-> | [-> | [-> | []]]]],
           Hsize' as [-> | [-> | [-> | [-> | []]]]];
    first [reflexivity | vm_compute in Heq; discriminate Heq].
Qed.

(** X13. On a stored Twitter picture URL that has the token [_normal.],
    different sizes of the enumeration give different URLs. *)
Theorem twitter_picture_size_inj parent url size size'
    (Hpicture : picture parent = Some url)
    (Htoken : occurs_in "_normal." url)
    (Hsize : size ∈ twitterPictureSizes)
    (Hsize' : size' ∈ twitterPictureSizes)
    (Hsame : twitterPicture parent (twitterArgs (Some size))
             = twitterPicture parent (twitterArgs (Some size'))) :
  size = size'.
Proof.
  assert (Hurl : url <> "").
  { destruct Htoken as ([|c pre] & post & ->); discriminate. }
  rewrite !(twitterPicture_replace _ _ _ Hpicture Hurl) in Hsame.
  destruct (StringOps.find "_normal." url) as [i|] eqn:Hfind.
  - rewrite !(replace_found _ _ _ _ Hfind) in Hsame
      by (apply sizeToken_plain; assumption).
    injection Hsame as Hsame.
    apply (inj (String.append _)) in Hsame. apply app_cancel_r in Hsame.
    exact (sizeToken_inj _ _ Hsize Hsize' Hsame).
  - exfalso. exact (find_none _ _ Hfind Htoken).
Qed.

End MorePictureFacts.

Section MoreFacebookFacts.
Import Pictures Examples.

Lemma pieces_nullish (key : string) (v : value) :
  Executor.nullish v = true -> Qs.pieces {| Qs.skipNulls := true |} key v = [].
Proof. destruct v; [reflexivity | reflexivity | discriminate ..]. Qed.

Lemma pieces_given (key : string) (v : value) :
  Executor.nullish v = false ->
  Qs.pieces {| Qs.skipNulls := true |} key v
  = [Qs.encode key +:+ "=" +:+ Qs.encode (toString v)].
Proof. destruct v; [discriminate | discriminate | reflexivity ..]. Qed.

(** The query string is empty exactly when neither argument is given. *)
Lemma stringify_empty_iff (args : gmap string value) :
  Qs.stringify (Lodash.pick args ["width"; "height"])
    {| Qs.skipNulls := true |} = EmptyString
  <-> Executor.nullish (arg args "width") = true
      /\ Executor.nullish (arg args "height") = true.
Proof.
  rewrite stringify_width_height.
  destruct (Executor.nullish (arg args "width")) eqn:Hw,
           (Executor.nullish (arg args "height")) eqn:Hh.
  - rewrite (pieces_nullish _ _ Hw), (pieces_nullish _ _ Hh).
    split; [split; reflexivity | reflexivity].
  - rewrite (pieces_nullish _ _ Hw), (pieces_given _ _ Hh).
    split; [discriminate | intros [_ [=]]].
  - rewrite (pieces_given _ _ Hw), (pieces_nullish _ _ Hh).
    split; [discriminate | intros [[=] _]].
  - rewrite (pieces_given _ _ Hw), (pieces_given _ _ Hh).
    split; [discriminate | intros [[=] _]].
Qed.

(** X3. Each picture resolver reads one stored attribute ([id] for
    Facebook, [picture] for Google and Twitter) and the arguments declared
    for its field, and nothing else: two calls that agree on these return
    the same result, whatever else the parent stores or the argument
    object holds. *)
Theorem picture_resolvers_read_declared (U : Url.Lib) parent parent'
    (args args' : gmap string value) :
  (id parent = id parent' ->
   (forall k : string,
       k ∈ Obj.keys (pictureArgs CredentialTypes.ReindexFacebookCredential) ->
       arg args k = arg args' k) ->
   facebookPicture parent args = facebookPicture parent' args')
  /\ (picture parent = picture parent' ->
      (forall k : string,
          k ∈ Obj.keys (pictureArgs CredentialTypes.ReindexGoogleCredential) ->
          arg args k = arg args' k) ->
      googlePicture U parent args = googlePicture U parent' args')
  /\ (picture parent = picture parent' ->
      (forall k : string,
          k ∈ Obj.keys
                (pictureArgs CredentialTypes.ReindexTwitterCredential) ->
          arg args k = arg args' k) ->
      twitterPicture parent args = twitterPicture parent' args').
Proof.
  split; [|split].
  - intros Hid Hargs. unfold facebookPicture.
    rewrite !stringify_width_height, Hid.
    rewrite (Hargs "width"), (Hargs "height"); [reflexivity| |].
    + apply list_elem_of_here.
    + apply list_elem_of_further, list_elem_of_here.
  - intros Hpicture Hargs. unfold googlePicture.
    rewrite Hpicture, (Hargs "size"); [reflexivity|].
    apply list_elem_of_here.
  - intros Hpicture Hargs. unfold twitterPicture.
    rewrite Hpicture, (Hargs "size"); [reflexivity|].
    apply list_elem_of_here.
Qed.

(** X4. The Facebook resolver returns the URL without a query string
    exactly when neither [width] nor [height] is given (each is missing,
    [undefined] or [null]); a width or height of 0 counts as given. *)
Theorem facebook_picture_bare_iff parent (args : gmap string value) :
  facebookPicture parent args
  = "https://graph.facebook.com/v2.3/" +:+ id parent +:+ "/picture"
  <-> Executor.nullish (arg args "width") = true
      /\ Executor.nullish (arg args "height") = true.
Proof.
  unfold facebookPicture. rewrite <- stringify_empty_iff.
  destruct (Qs.stringify _ _) as [|c q]; cbn [truthy String.eqb negb].
  - split; reflexivity.
  - split; [|discriminate].
    intros Heq. exfalso. exact (app_nonempty_ne _ _ _ Heq).
Qed.

End MoreFacebookFacts.

Section MoreGoogleFacts.
Import Pictures Examples.

(** Where an assignment puts a property: an existing one keeps its place,
    a new one comes last. *)
Lemma keys_set {V : Type} (o : Obj.t V) (k : string) (v : V) :
  Obj.keys (Obj.set k v o)
  = if decide (k ∈ Obj.keys o) then Obj.keys o
    else (Obj.keys o ++ [k])%list.
Proof.
  unfold Obj.keys. induction o as [|[k' v'] o IH]; cbn [Obj.set].
  - rewrite decide_False by apply not_elem_of_nil. reflexivity.
  - rewrite fmap_cons. cbn [fst].
    destruct (decide (k' = k)) as [->|Hne].
    + rewrite decide_True by apply list_elem_of_here. reflexivity.
    + rewrite fmap_cons, IH. cbn [fst].
      destruct (decide (k ∈ o.*1)) as [Hin|Hnotin].
      * rewrite decide_True by (apply list_elem_of_further; exact Hin).
        reflexivity.
      * rewrite decide_False; [reflexivity|].
        intros [Heq|Hin]%elem_of_cons; [congruence | contradiction].
Qed.

(** X5. With a size other than zero the Google resolver formats a URL
    object whose query has the property names of the query object that
    [Url.parse] returned, in the order of that object, with [sz] at the
    place it had there and as the last property when it was not there.
    The order is the one of the parsed object, not of the stored text: on
    the model of Node's module, [?b=1&2=x&1=y] with the size 5 gives
    [?1=y&2=x&b=1&sz=5], and [?a=1&sz=50&b=2] with the size 7 gives
    [?a=1&sz=7&b=2]. *)
Theorem google_picture_sz_position (U : Url.Lib) parent url
    (args : gmap string value) (n : Z)
    (Hpicture : picture parent = Some url)
    (Hurl : url <> "")
    (Hsize : arg args "size" = Int n)
    (Hn : n <> 0%Z) :
  exists u' : Url.UrlObject,
    googlePicture U parent args = Some (Url.format U u')
    /\ Obj.keys (Url.query u')
       = (if decide ("sz" ∈ Obj.keys (Url.query (Url.parse U url)))
          then Obj.keys (Url.query (Url.parse U url))
          else (Obj.keys (Url.query (Url.parse U url)) ++ ["sz"])%list)
    /\ googlePicture NodeUrl.lib googleNumberedParameters
         {[ "size" := Int 5 ]}
       = Some "https://lh3.googleusercontent.com/a/photo?1=y&2=x&b=1&sz=5"
    /\ googlePicture NodeUrl.lib googleManyParameters {[ "size" := Int 7 ]}
       = Some "https://lh3.googleusercontent.com/a/photo?a=1&sz=7&b=2".
Proof.
  rewrite (googlePicture_nonempty U _ _ _ Hpicture Hurl), Hsize.
  cbn [truthy qvalue_of]. apply Z.eqb_neq in Hn. rewrite Hn. cbn [negb].
  eexists. split; [reflexivity|].
  split; [|split; reflexivity].
  cbn [Url.query Url.delete_search Url.set_query]. apply keys_set.
Qed.

End MoreGoogleFacts.

(** ** The validator, continued *)

Section MoreValidatorFacts.
Import IsConnectionValidator.

Context {Field : Type} (isConnection : Field -> bool).

Implicit Types (this : IsConnectionValidator)
  (schema : Schema.Schema Field) (parameters : gmap string string).

(** X6. [validate] returns [true] exactly when the referenced type is not
    found, or it has the named field and the field is a connection; in
    every other case it throws an [Error]. It never returns [false]. *)
Theorem validate_true_iff this schema name parameters :
  (validate isConnection this schema name parameters = Return true
   <-> forall existingType : Schema.TypeRecord Field,
         map_get (Schema.types schema)
           (map_get parameters (typeParameter this)) = Some existingType ->
         exists existingField : Field,
           Schema.fields existingType !! name = Some existingField
           /\ isConnection existingField = true)
  /\ (validate isConnection this schema name parameters = Return true
      \/ exists m : string,
           validate isConnection this schema name parameters
           = Throw (Error m)).
Proof.
  unfold validate. cbv zeta.
  destruct (map_get (Schema.types schema) _) as [existingType|].
  - destruct (Schema.fields existingType !! name) as [existingField|] eqn:Hf.
    + destruct (isConnection existingField) eqn:Hc; cbn [negb].
      * split; [|left; reflexivity]. split; [|reflexivity].
        intros _ t [= <-]. exists existingField. split; assumption.
      * split; [|right; eexists; reflexivity]. split; [discriminate|].
        intros H. destruct (H _ eq_refl) as (f & Hf' & Hc').
        rewrite Hf in Hf'. injection Hf' as <-. congruence.
    + split; [|right; eexists; reflexivity]. split; [discriminate|].
      intros H. destruct (H _ eq_refl) as (f & Hf' & _).
      rewrite Hf in Hf'. discriminate Hf'.
  - split; [|left; reflexivity]. split; [|reflexivity].
    intros _ t [=].
Qed.

(** X7. [validate] reads one parameter, the name of one type and one
    field of it: on two schemas and two parameter maps that agree on these
    it gives the same result, whatever other parameters, types and fields
    they hold. *)
Theorem validate_reads_only this schema schema' name parameters parameters'
    (Hparameter :
       map_get parameters (typeParameter this)
       = map_get parameters' (typeParameter this))
    (Htype :
       forall typeName : string,
         map_get parameters (typeParameter this) = Some typeName ->
         (fun t => (Schema.name t, Schema.fields t !! name))
           <$> Schema.types schema !! typeName
         = (fun t => (Schema.name t, Schema.fields t !! name))
             <$> Schema.types schema' !! typeName) :
  validate isConnection this schema name parameters
  = validate isConnection this schema' name parameters'.
Proof.
  unfold validate. cbv zeta. rewrite <- Hparameter.
  destruct (map_get parameters (typeParameter this)) as [typeName|];
    [|reflexivity].
  specialize (Htype typeName eq_refl). cbn [map_get mbind option_bind].
  destruct (Schema.types schema !! typeName) as [t|],
           (Schema.types schema' !! typeName) as [t'|];
    cbn in Htype; try discriminate Htype; [|reflexivity].
  injection Htype as Hname Hfield. rewrite Hname, Hfield. reflexivity.
Qed.

End MoreValidatorFacts.

(** ** The permission check, continued *)

Section MoreResolveFacts.
Import Resolve.

Context {ID : Type} `{EqDecision ID} {Credential Args : Type}.

Implicit Types (parent : @Parent ID Credential) (context : @Context ID).

Lemma resolve_returns_authorized provider parent (args : Args) context v :
  createCredentialResolve provider parent args context = Return v ->
  authorized context parent.
Proof.
  unfold createCredentialResolve. cbv zeta.
  destruct (isAdmin _ || isEqual _ _) eqn:E; [|discriminate].
  intros _. apply authorized_spec. exact E.
Qed.

Lemma resolve_throws_denied provider parent (args : Args) context e :
  createCredentialResolve provider parent args context = Throw e ->
  e = UserError
        ("User lacks permissions to read nodes of type `User` with fields "
         +:+ "`credentials." +:+ provider +:+ "`.").
Proof.
  unfold createCredentialResolve. cbv zeta.
  destruct (isAdmin _ || isEqual _ _); [discriminate|].
  intros [= <-]. reflexivity.
Qed.

(** X8. A caller who is not an admin is served for one node only: when
    the resolver returns for two parent objects, for whatever providers and
    arguments, the two belong to the same node. *)
Theorem resolve_isolation provider provider' parent parent'
    (args args' : Args) context v v'
    (Hadmin : isAdmin (credentials context) = false)
    (Hfirst : createCredentialResolve provider parent args context
              = Return v)
    (Hsecond : createCredentialResolve provider' parent' args' context
               = Return v') :
  id (__node parent) = id (__node parent').
Proof.
  apply resolve_returns_authorized in Hfirst as [Ha | Hid];
    [congruence|].
  apply resolve_returns_authorized in Hsecond as [Ha | Hid'];
    [congruence|].
  rewrite <- Hid, <- Hid'. reflexivity.
Qed.

(** X9. The exception of a refusal tells the provider: it is a
    [UserError], and two refusals with the same exception are refusals for
    the same provider key. *)
Theorem denial_determines_provider provider provider' parent parent'
    (args args' : Args) context context' e
    (Hfirst : createCredentialResolve provider parent args context
              = Throw e)
    (Hsecond : createCredentialResolve provider' parent' args' context'
               = Throw e) :
  provider = provider' /\ exists m : string, e = UserError m.
Proof.
  apply resolve_throws_denied in Hfirst, Hsecond.
  split; [|eexists; exact Hfirst].
  rewrite Hfirst in Hsecond. injection Hsecond as Hmessage.
  rewrite !app_nil_l in Hmessage.
  exact (app_cancel_r provider provider' _ Hmessage).
Qed.

End MoreResolveFacts.

(** ** The type definitions, continued *)

Section MoreTypeFacts.
Import GraphQL CredentialTypes.


(** X11. No field a provider adds overwrites a base field: in the type of
    each provider, every base field is the one [getBaseCredentialFields]
    gives for the name of the provider. *)
Theorem base_fields_kept :
  Forall
    (fun provider =>
       exists t : GraphQLType,
         credentialType provider = Some t
         /\ forall f : string,
              f ∈ baseFields ->
              Obj.get f (fields t)
              = Obj.get f (getBaseCredentialFields (providerName provider)))
    providers.
Proof.
  unfold providers, baseFields.
  repeat (apply List.Forall_cons; [eexists; split; [reflexivity|]|]);
    [..|apply List.Forall_nil].
  all: intros f; rewrite !elem_of_cons, elem_of_nil.
  all: intros [-> | [-> | [-> | []]]]; reflexivity.
Qed.

(** X12. The fields of [ReindexCredentialCollection] are the five provider
    keys; each resolves through [createCredentialResolve] called with its
    own key, takes no argument and has a registered type. Six types with
    six different names are registered, the collection first. *)
Theorem credential_collection_wiring :
  Obj.keys (fields ReindexCredentialCollection)
  = ["auth0"; "facebook"; "github"; "google"; "twitter"]
  /\ Forall
       (fun e =>
          resolve e.2 = Some (CredentialResolve e.1)
          /\ args e.2 = []
          /\ {| TypeSet_type := type e.2 |} ∈ createCredentialTypes)
       (fields ReindexCredentialCollection)
  /\ head createCredentialTypes
     = Some {| TypeSet_type := ReindexCredentialCollection |}
  /\ length createCredentialTypes = 6%nat
  /\ NoDup ((fun ts => typeName (TypeSet_type ts)) <$> createCredentialTypes).
Proof.
  split; [reflexivity|]. split; [|split; [reflexivity|split; [reflexivity|]]].
  - repeat apply List.Forall_cons; [..|apply List.Forall_nil];
      (split; [reflexivity|]); (split; [reflexivity|]);
      unfold createCredentialTypes; rewrite !elem_of_cons; tauto.
  - apply NoDup_ListNoDup. cbn.
    repeat (apply List.NoDup_cons; [cbn; intuition discriminate|]).
    apply List.NoDup_nil.
Qed.

End MoreTypeFacts.

(** ** The further properties at the sample data *)

Section MoreInstances.
Import Pictures Examples.

(** The size [normal] and a URL without the token leave the URL as it is;
    the size [bigger] on a URL with the token does not. *)
Lemma twitter_picture_unchanged_iff_witness :
  twitterPicture twitterProfile (twitterArgs (Some "normal"))
  = Some "http://pbs.twimg.com/profile_images/1/avatar_normal.png"
  /\ twitterPicture twitterOriginal (twitterArgs (Some "bigger"))
     = Some "http://pbs.twimg.com/profile_images/1/avatar.png"
  /\ twitterPicture twitterProfile (twitterArgs (Some "bigger"))
     <> Some "http://pbs.twimg.com/profile_images/1/avatar_normal.png".
Proof.
  assert (Hnormal : "normal" ∈ twitterPictureSizes)
    by (rewrite twitterPictureSizes_eq, !elem_of_cons; tauto).
  assert (Hbigger : "bigger" ∈ twitterPictureSizes)
    by (rewrite twitterPictureSizes_eq, !elem_of_cons; tauto).
  split; [|split].
  - apply (twitter_picture_unchanged_iff twitterProfile _ "normal" eq_refl);
      [discriminate | exact Hnormal | left; reflexivity].
  - apply (twitter_picture_unchanged_iff twitterOriginal _ "bigger" eq_refl);
      [discriminate | exact Hbigger | right].
    apply find_none. reflexivity.
  - intros Hsame.
    apply (twitter_picture_unchanged_iff twitterProfile _ "bigger" eq_refl)
      in Hsame as [Hsize | Hno];
      [discriminate Hsize | | discriminate | exact Hbigger].
    apply Hno.
    exists "http://pbs.twimg.com/profile_images/1/avatar", "png".
    reflexivity.
Defined.

(** Another stored picture and one more argument change nothing for
    Facebook. *)
Lemma picture_resolvers_read_declared_witness :
  facebookPicture facebookProfile {[ "width" := Int 50 ]}
  = facebookPicture (profile "123" (Some "http://example.com/me.png"))
      {[ "width" := Int 50; "size" := Int 7 ]}.
Proof.
  apply (picture_resolvers_read_declared NodeUrl.lib facebookProfile
           (profile "123" (Some "http://example.com/me.png"))
           {[ "width" := Int 50 ]} {[ "width" := Int 50; "size" := Int 7 ]}).
  - reflexivity.
  - intros k Hk.
    change (k ∈ ["height"; "width"]) in Hk.
    rewrite !elem_of_cons, elem_of_nil in Hk.
    destruct Hk as [-> | [-> | []]]; reflexivity.
Defined.

(** The sizes [bigger] and [mini] give different URLs, so equal results
    come from equal sizes. *)
Lemma twitter_picture_size_inj_witness :
  occurs_in "_normal."
    "http://pbs.twimg.com/profile_images/1/avatar_normal.png"
  /\ "mini" = "mini".
Proof.
  assert (Htoken : occurs_in "_normal."
            "http://pbs.twimg.com/profile_images/1/avatar_normal.png").
  { exists "http://pbs.twimg.com/profile_images/1/avatar", "png".
    reflexivity. }
  assert (Hmini : "mini" ∈ twitterPictureSizes)
    by (rewrite twitterPictureSizes_eq, !elem_of_cons; tauto).
  split; [exact Htoken|].
  exact (twitter_picture_size_inj twitterProfile _ "mini" "mini" eq_refl
           Htoken Hmini Hmini eq_refl).
Defined.

(** [sz] stays between [a] and [b]; after the parameters [1], [2] and
    [b] of the parsed object it comes last. *)
Lemma google_picture_sz_position_witness :
  (exists u' : Url.UrlObject,
      googlePicture NodeUrl.lib googleManyParameters {[ "size" := Int 7 ]}
      = Some (Url.format NodeUrl.lib u')
      /\ Obj.keys (Url.query u') = ["a"; "sz"; "b"])
  /\ (exists u' : Url.UrlObject,
        googlePicture NodeUrl.lib googleNumberedParameters
          {[ "size" := Int 5 ]}
        = Some (Url.format NodeUrl.lib u')
        /\ Obj.keys (Url.query u') = ["1"; "2"; "b"; "sz"])
  /\ googlePicture NodeUrl.lib googleNumberedParameters
       {[ "size" := Int 5 ]}
     = Some "https://lh3.googleusercontent.com/a/photo?1=y&2=x&b=1&sz=5".
Proof.
  assert (Hmany : "https://lh3.googleusercontent.com/a/photo?a=1&sz=50&b=2"
                  <> "") by discriminate.
  assert (Hnumbered : "https://lh3.googleusercontent.com/a/photo?b=1&2=x&1=y"
                      <> "") by discriminate.
  assert (H7 : arg {[ "size" := Int 7 ]} "size" = Int 7) by reflexivity.
  assert (H5 : arg {[ "size" := Int 5 ]} "size" = Int 5) by reflexivity.
  assert (Hn7 : 7%Z <> 0%Z) by discriminate.
  assert (Hn5 : 5%Z <> 0%Z) by discriminate.
  destruct (google_picture_sz_position NodeUrl.lib googleManyParameters _
              {[ "size" := Int 7 ]} 7%Z eq_refl Hmany H7 Hn7)
    as (u7 & Hresult7 & Hkeys7 & _).
  destruct (google_picture_sz_position NodeUrl.lib googleNumberedParameters
              _ {[ "size" := Int 5 ]} 5%Z eq_refl Hnumbered H5 Hn5)
    as (u5 & Hresult5 & Hkeys5 & Hexample & _).
  split; [|split].
  - exists u7. split; [exact Hresult7 | exact Hkeys7].
  - exists u5. split; [exact Hresult5 | exact Hkeys5].
  - exact Hexample.
Defined.

(** One more type, one more field and one more parameter change
    nothing. *)
Lemma validate_reads_only_witness :
  IsConnectionValidator.validate (fun f : bool => f) rule schema "comments"
    {[ "type" := "Post" ]}
  = IsConnectionValidator.validate (fun f : bool => f) rule largerSchema
      "comments" {[ "type" := "Post"; "other" := "User" ]}.
Proof.
  apply (validate_reads_only (fun f : bool => f) rule schema largerSchema
           "comments" {[ "type" := "Post" ]}
           {[ "type" := "Post"; "other" := "User" ]}).
  - reflexivity.
  - intros typeName [= <-]. reflexivity.
Defined.

(** The user is served for both parent objects of the node [user-1]. *)
Lemma resolve_isolation_witness :
  Resolve.id (Resolve.__node user) = Resolve.id (Resolve.__node userTwitter).
Proof.
  apply (resolve_isolation "github" "twitter" user userTwitter
           (∅ : gmap string value) (∅ : gmap string value)
           (caller false "user-1")
           (Some (Resolve.PCredential (profile "42" None)))
           (Some (Resolve.PCredential (profile "7" None))));
    reflexivity.
Defined.

(** Two refusals for the key [github]. *)
Lemma denial_determines_provider_witness :
  "github" = "github"
  /\ exists m : string,
       UserError
         ("User lacks permissions to read nodes of type `User` with " +:+
          "fields `credentials.github`.")
       = UserError m.
Proof.
  apply (denial_determines_provider "github" "github" user userTwitter
           (∅ : gmap string value) (∅ : gmap string value)
           (caller false "user-2") (caller false "user-3"));
    reflexivity.
Defined.

End MoreInstances.
